(** * Consensus core of Sia (src/sia/blocks.go) and the negotiation
    helper of the contractor (src/modules/renter/contractor/contractor.go),
    shallowly embedded in Rocq.

    Representation choices:
    - the 32-byte arrays [BlockID], [OutputID], [ContractID], [Target] and
      the depth field are 256-bit integers [Z] (their big-endian reading);
      [be n x] gives back the bytes when the code looks at them;
    - Go maps are stdpp [gmap]s; a missing key reads as the zero value;
    - the open contracts are stored behind pointers in Go
      ([map[ContractID]*OpenContract]): we keep a heap [Heap] from
      pointers to contract objects, and [OpenContracts] maps contract ids
      to pointers, so that the undo log holds pointers as the code does;
    - block nodes are stored in [BlockMap]; a node's children are kept as
      block ids;
    - a Go runtime panic (nil dereference, index out of range, division by
      zero, big.Rat with a zero denominator) is [None]. *)

From Stdlib Require Import ZArith Lia List String QArith Qround.
From stdpp Require Import base gmap list.
Import ListNotations.

Open Scope Z_scope.

(** ** Machine integers *)

Definition wrap64 (x : Z) : Z := x mod 2 ^ 64.
Definition wrap64s (x : Z) : Z := (x + 2 ^ 63) mod 2 ^ 64 - 2 ^ 63.

(** ** Big-endian bytes *)

(** [be n x]: the [n] low bytes of [x], most significant first. *)
Fixpoint be (n : nat) (x : Z) : list Z :=
  match n with
  | O => []
  | S k => be k (x / 256) ++ [x mod 256]
  end.

(** [big.Int.SetBytes]: big-endian reading of a byte slice. *)
Definition be_to_Z (l : list Z) : Z := fold_left (fun acc d => acc * 256 + d) l 0.

(** Length of [big.Int.Bytes()] for a non-negative integer. *)
Definition byte_len (x : Z) : nat :=
  if x <=? 0 then O else Z.to_nat (Z.log2 x / 8 + 1).

(** [big.Int.Bytes()]: minimal big-endian bytes of the absolute value. *)
Definition int_bytes (x : Z) : list Z := be (byte_len (Z.abs x)) (Z.abs x).

(** [bytes.Compare]. *)
Fixpoint bytes_compare (a b : list Z) : comparison :=
  match a, b with
  | [], [] => Eq
  | [], _ => Lt
  | _, [] => Gt
  | x :: a', y :: b' =>
      match Z.compare x y with
      | Eq => bytes_compare a' b'
      | c => c
      end
  end.

(** [sort.Ints]: insertion sort. *)
Fixpoint insert_sorted (x : Z) (l : list Z) : list Z :=
  match l with
  | [] => [x]
  | y :: l' => if x <=? y then x :: l else y :: insert_sorted x l'
  end.

Fixpoint sort_ints (l : list Z) : list Z :=
  match l with
  | [] => []
  | x :: l' => insert_sorted x (sort_ints l')
  end.

(** ** Errors *)

Record Err := ErrMsg { Error : string }.

Definition err_future := ErrMsg "timestamp too far in future".
Definition err_past := ErrMsg "timestamp invalid for being in the past".
Definition err_merkle := ErrMsg "merkle root does not match transactions sent.".
Definition err_target := ErrMsg "block does not meet target".

(** ** Data model *)

Section DataModel.
Context {Transaction : Type}.

Record Output := MkOutput { Value : Z; SpendHash : Z }.

Record FileContract := MkFileContract {
  Start : Z;
  End : Z;
  ChallengeFrequency : Z;
  Tolerance : Z;
  MissedProofPayout : Z;
  MissedProofAddress : Z;
  ValidProofAddress : Z
}.

Record OpenContract := MkOpenContract {
  OCFileContract : FileContract;
  ContractID : Z;
  FundsRemaining : Z;
  Failures : Z;
  WindowSatisfied : bool
}.

Record Block := MkBlock {
  ParentBlock : Z;
  Timestamp : Z;
  MinerAddress : Z;
  Nonce : Z;
  MerkleRoot : Z;
  Transactions : list Transaction
}.

Record MissedStorageProof := MkMissedStorageProof {
  MSPOutputID : Z;
  MSPContractID : Z
}.

Record BlockNode := MkBlockNode {
  NBlock : Block;
  Height : Z;
  RecentTimestamps : list Z;
  Target : Z;
  Depth : Z;
  Children : list Z;
  (** undo log: pointers to the terminated contracts *)
  ContractTerminations : list Z;
  MissedStorageProofs : list MissedStorageProof
}.

(** The part of the state touched by transactions. *)
Record Ledger := MkLedger {
  UnspentOutputs : gmap Z Output;
  OpenContracts : gmap Z Z;
  Heap : gmap Z OpenContract
}.

Record State := MkState {
  BlockRoot : BlockNode;
  BadBlocks : gset Z;
  BlockMap : gmap Z BlockNode;
  CurrentBlock : Z;
  CurrentPath : gmap Z Z;
  SLedger : Ledger
}.

Definition zero_output : Output := MkOutput 0 0.

Definition set_BadBlocks (s : State) (x : gset Z) : State :=
  MkState (BlockRoot s) x (BlockMap s) (CurrentBlock s) (CurrentPath s) (SLedger s).
Definition set_BlockMap (s : State) (x : gmap Z BlockNode) : State :=
  MkState (BlockRoot s) (BadBlocks s) x (CurrentBlock s) (CurrentPath s) (SLedger s).
Definition set_CurrentBlock (s : State) (x : Z) : State :=
  MkState (BlockRoot s) (BadBlocks s) (BlockMap s) x (CurrentPath s) (SLedger s).
Definition set_CurrentPath (s : State) (x : gmap Z Z) : State :=
  MkState (BlockRoot s) (BadBlocks s) (BlockMap s) (CurrentBlock s) x (SLedger s).
Definition set_Ledger (s : State) (x : Ledger) : State :=
  MkState (BlockRoot s) (BadBlocks s) (BlockMap s) (CurrentBlock s) (CurrentPath s) x.

Definition set_UnspentOutputs (l : Ledger) (x : gmap Z Output) : Ledger :=
  MkLedger x (OpenContracts l) (Heap l).
Definition set_OpenContracts (l : Ledger) (x : gmap Z Z) : Ledger :=
  MkLedger (UnspentOutputs l) x (Heap l).
Definition set_Heap (l : Ledger) (x : gmap Z OpenContract) : Ledger :=
  MkLedger (UnspentOutputs l) (OpenContracts l) x.

End DataModel.

Arguments Block : clear implicits.
Arguments BlockNode : clear implicits.
Arguments State : clear implicits.

(** ** Collaborators outside src/

    Hashing, transaction validation and application, the Merkle root and
    the consensus constants live in other files of the repository or in
    external packages; the core uses them through this interface. *)
Class Env (Transaction : Type) := {
  ID : Block Transaction -> Z;
  SubsidyID : Block Transaction -> Z;
  StorageProofOutputID : FileContract -> Z -> Z -> bool -> Z;
  ContractTerminationOutputID : FileContract -> Z -> bool -> Z;
  expectedTransactionMerkleRoot : Block Transaction -> Z;
  MinerFees : Transaction -> list Z;
  validTransaction : State Transaction -> Transaction -> option Err;
  applyTransaction : Ledger -> Transaction -> Ledger;
  reverseTransaction : Ledger -> Transaction -> Ledger;
  FutureThreshold : Z;
  TargetWindow : Z;
  BlockFrequency : Z;
  MaxAdjustmentUp : Q;
  MaxAdjustmentDown : Q
}.

Section Consensus.
Context {Transaction : Type} `{!Env Transaction}.

Abbreviation Block := (Block Transaction).
Abbreviation BlockNode := (BlockNode Transaction).
Abbreviation State := (State Transaction).

(** Modelled from the spec: [State.currentBlockNode()], the node of the
    current tip (a nil pointer, hence a panic on use, when it is missing). *)
Definition currentBlockNode (s : State) : option BlockNode :=
  BlockMap s !! CurrentBlock s.

(** Modelled from the spec: [State.currentBlock()], the block of the
    current tip. *)
Definition currentBlock (s : State) : option Block :=
  NBlock <$> currentBlockNode s.

(** Modelled from the spec: [State.Height()], the height of the current
    tip. *)
Definition StateHeight (s : State) : option Z :=
  Height <$> currentBlockNode s.

(** [Block.checkTarget] *)
Definition checkTarget (b : Block) (target : Z) : bool :=
  match bytes_compare (be 32 target) (be 32 (ID b)) with
  | Lt => false
  | _ => true
  end.

(** The median of the eleven recent timestamps of a node. *)
Definition median (parent : BlockNode) : Z :=
  nth 5 (sort_ints (RecentTimestamps parent)) 0.

(** [State.validateHeader]; [now] is [time.Now().Unix()]. The result is
    the returned error and the new state, [None] for a panic. *)
Definition validateHeader (s : State) (parent : BlockNode) (b : Block) (now : Z)
    : option (option Err * State) :=
  let skew := wrap64s (Timestamp b - now) in
  if FutureThreshold <? skew then Some (Some err_future, s) else
  let intTimestamps := sort_ints (RecentTimestamps parent) in
  match nth_error intTimestamps 5 with
  | None => None
  | Some ts5 =>
    if Timestamp b <? ts5 then
      Some (Some err_past, set_BadBlocks s ({[ID b]} ∪ BadBlocks s))
    else if negb (MerkleRoot b =? expectedTransactionMerkleRoot b) then
      Some (Some err_merkle, set_BadBlocks s ({[ID b]} ∪ BadBlocks s))
    else if negb (checkTarget b (Target parent)) then
      Some (Some err_target, s)
    else Some (None, s)
  end.

(** Loops of the code that may panic: a fold in the option monad. *)
Fixpoint foldM {A B : Type} (f : A -> B -> option A) (a : A) (l : list B) : option A :=
  match l with
  | [] => Some a
  | x :: l' => f a x ≫= fun a' => foldM f a' l'
  end.

Definition set_Outputs (s : State) (m : gmap Z Output) : State :=
  set_Ledger s (set_UnspentOutputs (SLedger s) m).
Definition set_Open (s : State) (m : gmap Z Z) : State :=
  set_Ledger s (set_OpenContracts (SLedger s) m).
Definition set_HeapS (s : State) (m : gmap Z OpenContract) : State :=
  set_Ledger s (set_Heap (SLedger s) m).

(** [s.currentBlockNode().F = f(s.currentBlockNode().F)]. *)
Definition update_current_node (s : State) (f : BlockNode -> BlockNode) : option State :=
  n ← currentBlockNode s;
  Some (set_BlockMap s (<[CurrentBlock s := f n]> (BlockMap s))).

Definition push_missed (m : MissedStorageProof) (n : BlockNode) : BlockNode :=
  MkBlockNode (NBlock n) (Height n) (RecentTimestamps n) (Target n) (Depth n)
    (Children n) (ContractTerminations n) (MissedStorageProofs n ++ [m]).

Definition push_termination (p : Z) (n : BlockNode) : BlockNode :=
  MkBlockNode (NBlock n) (Height n) (RecentTimestamps n) (Target n) (Depth n)
    (Children n) (ContractTerminations n ++ [p]) (MissedStorageProofs n).

Definition with_funds_failures (oc : OpenContract) (funds failures : Z) : OpenContract :=
  MkOpenContract (OCFileContract oc) (ContractID oc) funds failures (WindowSatisfied oc).

Definition with_window (oc : OpenContract) (w : bool) : OpenContract :=
  MkOpenContract (OCFileContract oc) (ContractID oc) (FundsRemaining oc) (Failures oc) w.

(** The state reached when every transaction of [pre] is valid in turn
    and applied. *)
Fixpoint validPrefix (s : State) (pre : list Transaction) : option State :=
  match pre with
  | [] => Some s
  | t :: pre' =>
      match validTransaction s t with
      | None => validPrefix (set_Ledger s (applyTransaction (SLedger s) t)) pre'
      | Some _ => None
      end
  end.

(** The transaction loop of [integrateBlock]: returns the error, the state,
    the applied transactions and the miner subsidy. *)
Fixpoint applyTxns (s : State) (bid : Z) (txns applied : list Transaction) (minerSubsidy : Z)
    : option Err * State * list Transaction * Z :=
  match txns with
  | [] => (None, s, applied, minerSubsidy)
  | txn :: rest =>
      match validTransaction s txn with
      | Some e => (Some e, set_BadBlocks s ({[bid]} ∪ BadBlocks s), applied, minerSubsidy)
      | None =>
          let s' := set_Ledger s (applyTransaction (SLedger s) txn) in
          applyTxns s' bid rest (applied ++ [txn])
            (fold_left Z.add (MinerFees txn) minerSubsidy)
      end
  end.

(** Reversal of a list of transactions, last one first. *)
Definition reverseTxns (l : Ledger) (txns : list Transaction) : Ledger :=
  fold_left reverseTransaction (rev txns) l.

(** One iteration of the contract-maintenance loop of [integrateBlock], on
    the contract behind pointer [p]; [del] is [contractsToDelete]. *)
Definition maintainContract (sd : State * list Z) (p : Z) : option (State * list Z) :=
  let '(s, del) := sd in
  h ← StateHeight s;
  oc ← Heap (SLedger s) !! p;
  let fc := OCFileContract oc in
  if ChallengeFrequency fc =? 0 then None else
  (* window switching over *)
  '(s, oc) ←
    (if (wrap64 (h - Start fc) mod ChallengeFrequency fc =? 0) && (Start fc <? h) then
       '(s, oc) ←
         (if negb (WindowSatisfied oc) then
            let payout := if FundsRemaining oc <? MissedProofPayout fc
                          then FundsRemaining oc else MissedProofPayout fc in
            let newOutputID := StorageProofOutputID fc (ContractID oc) h false in
            let s := set_Outputs s (<[newOutputID := MkOutput payout (MissedProofAddress fc)]>
                                      (UnspentOutputs (SLedger s))) in
            s ← update_current_node s
                  (push_missed (MkMissedStorageProof newOutputID (ContractID oc)));
            let oc := with_funds_failures oc (FundsRemaining oc - payout)
                        (wrap64 (Failures oc + 1)) in
            Some (s, oc)
          else Some (s, oc));
       Some (s, with_window oc false)
     else Some (s, oc));
  let s := set_HeapS s (<[p := oc]> (Heap (SLedger s))) in
  (* terminated contract *)
  if (FundsRemaining oc =? 0) || (End fc =? h) || (Tolerance fc =? Failures oc) then
    let s :=
      if negb (FundsRemaining oc =? 0) then
        let contractStatus := Failures oc =? Tolerance fc in
        let outputID := ContractTerminationOutputID fc (ContractID oc) contractStatus in
        let spend := if Tolerance fc =? Failures oc then MissedProofAddress fc
                     else ValidProofAddress fc in
        set_Outputs s (<[outputID := MkOutput (FundsRemaining oc) spend]>
                         (UnspentOutputs (SLedger s)))
      else s in
    s ← update_current_node s (push_termination p);
    Some (s, del ++ [ContractID oc])
  else Some (s, del).

(** [State.integrateBlock]. Go iterates over [s.OpenContracts] in an
    unspecified order; the model uses the order of [map_to_list]. *)
Definition integrateBlock (s : State) (b : Block) : option (option Err * State) :=
  let '(err, s, applied, minerSubsidy) := applyTxns s (ID b) (Transactions b) [] 0 in
  match err with
  | Some e => Some (Some e, set_Ledger s (reverseTxns (SLedger s) applied))
  | None =>
      '(s, contractsToDelete) ←
        foldM maintainContract (s, []) (map snd (map_to_list (OpenContracts (SLedger s))));
      let s := set_Open s (fold_left (fun m cid => delete cid m) contractsToDelete
                             (OpenContracts (SLedger s))) in
      let minerSubsidy := minerSubsidy + 1000 in
      let s := set_Outputs s (<[SubsidyID b := MkOutput minerSubsidy (MinerAddress b)]>
                                (UnspentOutputs (SLedger s))) in
      let s := set_CurrentBlock s (ID b) in
      n ← BlockMap s !! ID b;
      Some (None, set_CurrentPath s (<[Height n := ID b]> (CurrentPath s)))
  end.

(** First loop of [rewindABlock]: reopen a terminated contract. *)
Definition reopenContract (s : State) (p : Z) : option State :=
  oc ← Heap (SLedger s) !! p;
  let s := set_Open s (<[ContractID oc := p]> (OpenContracts (SLedger s))) in
  let contractStatus := Failures oc =? Tolerance (OCFileContract oc) in
  Some (set_Outputs s (delete (ContractTerminationOutputID (OCFileContract oc)
                                 (ContractID oc) contractStatus)
                              (UnspentOutputs (SLedger s)))).

(** Second loop of [rewindABlock]: undo a missed storage proof. *)
Definition undoMissedProof (s : State) (m : MissedStorageProof) : option State :=
  p ← OpenContracts (SLedger s) !! MSPContractID m;
  oc ← Heap (SLedger s) !! p;
  let v := Value (default zero_output (UnspentOutputs (SLedger s) !! MSPOutputID m)) in
  let oc := with_funds_failures oc (FundsRemaining oc + v) (wrap64 (Failures oc - 1)) in
  let s := set_HeapS s (<[p := oc]> (Heap (SLedger s))) in
  Some (set_Outputs s (delete (MSPOutputID m) (UnspentOutputs (SLedger s)))).

(** [State.rewindABlock]. *)
Definition rewindABlock (s : State) : option State :=
  n ← currentBlockNode s;
  s ← foldM reopenContract s (ContractTerminations n);
  n ← currentBlockNode s;
  s ← foldM undoMissedProof s (MissedStorageProofs n);
  blk ← currentBlock s;
  let s := set_Ledger s (reverseTxns (SLedger s) (Transactions blk)) in
  blk ← currentBlock s;
  let s := set_CurrentBlock s (ParentBlock blk) in
  h ← StateHeight s;
  Some (set_CurrentPath s (delete h (CurrentPath s))).

(** [State.invalidateNode]. Children are block ids; a child already
    removed from [BlockMap] was invalidated together with its subtree, and
    the Go recursion into it only re-deletes and re-marks those ids, which
    is the [None] branch. *)
Fixpoint invalidateNode (fuel : nat) (s : State) (n : BlockNode) : option State :=
  match fuel with
  | O => None
  | S f =>
      s ← foldM (fun s c =>
                   match BlockMap s !! c with
                   | Some cn => invalidateNode f s cn
                   | None => Some (set_BadBlocks s ({[c]} ∪ BadBlocks s))
                   end) s (Children n);
      let s := set_BlockMap s (delete (ID (NBlock n)) (BlockMap s)) in
      Some (set_BadBlocks s ({[ID (NBlock n)]} ∪ BadBlocks s))
  end.

(** First loop of [forkBlockchain]: walk up to the fork point, collecting
    [parentHistory]. A missing map entry reads as the zero id. *)
Fixpoint findForkPoint (fuel : nat) (s : State) (cur : BlockNode) (parentHistory : list Z)
    : option (BlockNode * list Z) :=
  match fuel with
  | O => None
  | S f =>
      let value := default 0 (CurrentPath s !! Height cur) in
      if value =? ID (NBlock cur) then Some (cur, parentHistory) else
      next ← BlockMap s !! ParentBlock (NBlock cur);
      findForkPoint f s next (parentHistory ++ [ID (NBlock cur)])
  end.

(** Second loop: rewind until the fork point, collecting [rewoundBlocks]. *)
Fixpoint rewindTo (fuel : nat) (s : State) (target : Z) (rewoundBlocks : list Z)
    : option (State * list Z) :=
  match fuel with
  | O => None
  | S f =>
      if CurrentBlock s =? target then Some (s, rewoundBlocks) else
      s' ← rewindABlock s;
      rewindTo f s' target (rewoundBlocks ++ [CurrentBlock s])
  end.

Fixpoint rewindN (k : nat) (s : State) : option State :=
  match k with
  | O => Some s
  | S k' => s' ← rewindABlock s; rewindN k' s'
  end.

(** Re-integration of the rewound blocks; [err] is the variable [err] of
    [forkBlockchain], assigned by every call. *)
Fixpoint restoreBlocks (s : State) (ids : list Z) (err : option Err)
    : option (option Err * State) :=
  match ids with
  | [] => Some (err, s)
  | r :: ids' =>
      n ← BlockMap s !! r;
      '(e, s') ← integrateBlock s (NBlock n);
      match e with
      | Some _ => None (* panic("Once-validated blocks are no longer validating ...") *)
      | None => restoreBlocks s' ids' e
      end
  end.

(** Third loop: integrate the new fork, from the fork point outwards. *)
Fixpoint integrateFork (fuel : nat) (s : State) (todo : list Z) (validatedBlocks : nat)
    (rewoundBlocks : list Z) : option (option Err * State) :=
  match todo with
  | [] => Some (None, s)
  | bid :: rest =>
      n ← BlockMap s !! bid;
      '(err, s) ← integrateBlock s (NBlock n);
      match err with
      | None => integrateFork fuel s rest (S validatedBlocks) rewoundBlocks
      | Some e =>
          n ← BlockMap s !! bid;
          s ← invalidateNode fuel s n;
          s ← rewindN validatedBlocks s;
          restoreBlocks s (rev rewoundBlocks) (Some e)
      end
  end.

(** [State.forkBlockchain]; [fuel] bounds the loops ([None] also stands
    for running out of it). *)
Definition forkBlockchain (fuel : nat) (s : State) (newNode : BlockNode)
    : option (option Err * State) :=
  '(cur, parentHistory) ← findForkPoint fuel s newNode [];
  '(s, rewoundBlocks) ← rewindTo fuel s (ID (NBlock cur)) [];
  integrateFork fuel s (rev parentHistory) 0 rewoundBlocks.

(** [big.NewRat(a, b)]; panics when [b = 0]. *)
Definition newRat (a b : Z) : option Q :=
  if b =? 0 then None
  else if 0 <? b then Some (a # Z.to_pos b) else Some ((- a) # Z.to_pos (- b)).

(** [new(big.Rat).SetFrac(big.NewInt(1), x)]; panics when [x = 0]. *)
Definition ratInv (x : Z) : option Q := newRat 1 x.

(** Modelled from the spec: [State.blockAtHeight(h)], the block at height
    [h] on the current path. *)
Definition blockAtHeight (s : State) (h : Z) : option Block :=
  NBlock <$> (BlockMap s !! default 0 (CurrentPath s !! h)).

(** The clamped adjustment [timePassed / expectedTimePassed] of
    [childTarget]. *)
Definition targetAdjustment (s : State) (newNode : BlockNode) : option Q :=
  '(timePassed, expectedTimePassed) ←
    (if Height newNode <? TargetWindow then
       Some (wrap64s (Timestamp (NBlock newNode) - Timestamp (NBlock (BlockRoot s))),
             wrap64s (BlockFrequency * wrap64s (Height newNode)))
     else
       adjustmentBlock ← blockAtHeight s (wrap64 (Height newNode - TargetWindow));
       Some (wrap64s (Timestamp (NBlock newNode) - Timestamp adjustmentBlock),
             wrap64s (BlockFrequency * TargetWindow)));
  adj ← newRat timePassed expectedTimePassed;
  Some (match Qcompare adj MaxAdjustmentUp with
        | Gt => MaxAdjustmentUp
        | _ => match Qcompare adj MaxAdjustmentDown with
               | Lt => MaxAdjustmentDown
               | _ => adj
               end
        end).

(** [ratNewTarget.Num() / ratNewTarget.Denom()] with [big.Int.Div]
    (Euclidean division; the denominator is positive, so this is the floor). *)
Definition adjustedTarget (s : State) (parentNode newNode : BlockNode) : option Z :=
  adj ← targetAdjustment s newNode;
  let ratNewTarget := Qmult adj (inject_Z (Target parentNode)) in
  Some (Qnum ratNewTarget / Zpos (Qden ratNewTarget)).

(** [State.childTarget]: the bytes of the new target are copied into the
    zeroed 32-byte array [target] at [offset]; a negative [offset] makes
    the slice expression [target[offset:]] panic. *)
Definition childTargetBytes (s : State) (parentNode newNode : BlockNode) : option (list Z) :=
  intNewTarget ← adjustedTarget s parentNode newNode;
  let newTargetBytes := int_bytes intNewTarget in
  let offset := 32 - Z.of_nat (length newTargetBytes) in
  if offset <? 0 then None
  else Some (repeat 0 (Z.to_nat offset) ++ newTargetBytes).

(** The same target read as a 256-bit number. *)
Definition childTarget (s : State) (parentNode newNode : BlockNode) : option Z :=
  be_to_Z <$> childTargetBytes s parentNode newNode.

(** Modelled from the spec: [State.currentBlockWeight()], one over the
    target of the current tip. *)
Definition currentBlockWeight (s : State) : option Q :=
  n ← currentBlockNode s; ratInv (Target n).

(** Modelled from the spec: [State.Depth()], the depth of the current tip. *)
Definition StateDepth (s : State) : option Z := Depth <$> currentBlockNode s.

Definition SurpassThreshold : Q := 5 # 100.

(** [State.heavierFork]. *)
Definition heavierFork (s : State) (newNode : BlockNode) : option bool :=
  w ← currentBlockWeight s;
  let threshold := Qmult w SurpassThreshold in
  sdepth ← StateDepth s;
  currentDepth ← ratInv sdepth;
  let requiredDepth := Qplus currentDepth threshold in
  newNodeDepth ← ratInv (Depth newNode);
  Some (match Qcompare newNodeDepth requiredDepth with Gt => true | _ => false end).

Definition err_known_invalid := ErrMsg "block is known to be invalid".
Definition err_in_block_map := ErrMsg "Block exists in block map.".
Definition err_orphan := ErrMsg "Block is an orphan".

(** [State.checkMaps]: the parent node, or the reason the block is not
    considered. *)
Definition checkMaps (s : State) (b : Block) : Err + BlockNode :=
  if decide (ID b ∈ BadBlocks s) then inl err_known_invalid
  else match BlockMap s !! ID b with
  | Some _ => inl err_in_block_map
  | None =>
      match BlockMap s !! ParentBlock b with
      | None => inl err_orphan
      | Some parentBlockNode => inr parentBlockNode
      end
  end.

(** [State.childDepth]. [big.Int.Div] is Euclidean division; it panics on
    a zero divisor. *)
Definition childDepth (parentNode : BlockNode) : option Z :=
  blockWeight ← ratInv (Target parentNode);
  ratParentDepth ← ratInv (Depth parentNode);
  let ratChildDepth := Qplus ratParentDepth blockWeight in
  let num := Qnum ratChildDepth in
  let den := Zpos (Qden ratChildDepth) in
  if num =? 0 then None else
  let intChildDepth := if 0 <? num then den / num else - (den / (- num)) in
  let bytesChildDepth := int_bytes intChildDepth in
  let offset := 32 - Z.of_nat (length bytesChildDepth) in
  if offset <? 0 then None
  else Some (be_to_Z (repeat 0 (Z.to_nat offset) ++ bytesChildDepth)).

(** Go's [copy(dst, src)] on slices: the first [min (len dst) (len src)]
    elements of [dst] are replaced. *)
Definition go_copy (dst src : list Z) : list Z :=
  firstn (length dst) src ++ skipn (length src) dst.

Definition push_child (c : Z) (n : BlockNode) : BlockNode :=
  MkBlockNode (NBlock n) (Height n) (RecentTimestamps n) (Target n) (Depth n)
    (Children n ++ [c]) (ContractTerminations n) (MissedStorageProofs n).

(** [State.addBlockToTree]: the parent node is the node of the block
    [ID (NBlock parentNode)] in [BlockMap], which receives the new child. *)
Definition addBlockToTree (s : State) (parentNode : BlockNode) (b : Block)
    : option (State * BlockNode) :=
  let recent := <[10%nat := Timestamp b]> (go_copy (repeat 0 11) (tail (RecentTimestamps parentNode))) in
  let newNode := MkBlockNode b (wrap64 (Height parentNode + 1)) recent 0 0 [] [] [] in
  target ← childTarget s parentNode newNode;
  depth ← childDepth parentNode;
  let newNode := MkBlockNode b (Height newNode) recent target depth [] [] [] in
  let s := set_BlockMap s (<[ID b := newNode]> (BlockMap s)) in
  let s := set_BlockMap s (alter (push_child (ID b)) (ID (NBlock parentNode)) (BlockMap s)) in
  Some (s, newNode).

(** [State.AcceptBlock]; [now] is the clock, [fuel] bounds the loops of
    [forkBlockchain]. Besides the error and the state, the result lists
    the blocks handed to [Server.Broadcast]. *)
Definition AcceptBlock (fuel : nat) (s : State) (b : Block) (now : Z)
    : option (option Err * State * list Block) :=
  match checkMaps s b with
  | inl err => Some (Some err, s, [])
  | inr parentBlockNode =>
      '(err, s) ← validateHeader s parentBlockNode b now;
      match err with
      | Some e => Some (Some e, s, [])
      | None =>
          '(s, newBlockNode) ← addBlockToTree s parentBlockNode b;
          match heavierFork s newBlockNode with
          | None => None
          | Some true =>
              '(err, s) ← forkBlockchain fuel s newBlockNode;
              match err with
              | Some e => Some (Some e, s, [])
              | None => Some (None, s, [b])
              end
          | Some false => Some (None, s, [b])
          end
      end
  end.

(** The ids reached by [invalidateNode] from [n] in the block map [m]:
    [n]'s own id, the subtrees of its children found in [m], and the
    children missing from [m]. *)
Inductive in_subtree (m : gmap Z BlockNode) : BlockNode -> Z -> Prop :=
  | st_self n : in_subtree m n (ID (NBlock n))
  | st_child n c cn k : c ∈ Children n -> m !! c = Some cn -> in_subtree m cn k ->
      in_subtree m n k
  | st_missing n c : c ∈ Children n -> m !! c = None -> in_subtree m n c.

End Consensus.

(** ** Negotiation responses (contractor.go) *)

Module Negotiation.

Definition AcceptResponse : string := "accept".
Definition MaxErrorSize : Z := 256.

Section Read.
(** The decoder of the [encoding] package: bytes to a string, or a
    decoding error. *)
Variable decodeString : list Z -> Err + string.

(** Modelled from the spec: [encoding.ReadObject(conn, &resp, maxLen)]
    decodes a string from at most [maxLen] bytes of the connection. *)
Definition ReadObject (conn : list Z) (maxLen : Z) : Err + string :=
  decodeString (firstn (Z.to_nat maxLen) conn).

(** [ReadNegotiationAcceptance]; [None] is a nil error. *)
Definition ReadNegotiationAcceptance (conn : list Z) : option Err :=
  match ReadObject conn MaxErrorSize with
  | inl err => Some err
  | inr resp => if String.eqb resp AcceptResponse then None else Some (ErrMsg resp)
  end.

End Read.
End Negotiation.

(** ** Writing negotiation responses *)

Module NegotiationWrite.
Import Negotiation.

Section Write.
(** The encoder of the [encoding] package for strings. *)
Variable encodeString : string -> list Z.

(** [encoding.WriteObject(conn, s)]: the encoding of [s] follows the bytes
    already sent on the connection. *)
Definition WriteObject (conn : list Z) (s : string) : list Z := conn ++ encodeString s.

(** [WriteNegotiationAcceptance]: the bytes sent. *)
Definition WriteNegotiationAcceptance (conn : list Z) : list Z :=
  WriteObject conn AcceptResponse.

(** [WriteNegotiationRejection]: the bytes sent, the message of [err]. *)
Definition WriteNegotiationRejection (conn : list Z) (err : Err) : list Z :=
  WriteObject conn (Error err).

End Write.
End NegotiationWrite.

(** ** Host announcements *)

Module Announcement.

(** [types.Specifier]: 16 bytes. *)
Definition bytes_of_string (s : string) : list Z :=
  map (fun a => Z.of_N (Ascii.N_of_ascii a)) (list_ascii_of_string s).

Definition specifier (s : string) : list Z :=
  go_copy (repeat 0 16) (bytes_of_string s).

Definition PrefixHostAnnouncement : list Z := specifier "HostAnnouncemen2".

Definition ErrAnnNotAnnouncement :=
  ErrMsg "provided data does not form a recognized host announcement".
Definition ErrAnnUnrecognizedSignature :=
  ErrMsg "the signature provided in the host announcement is not recognized".

Record SiaPublicKey := MkSiaPublicKey { Algorithm : list Z; Key : list Z }.

(** [types.SiaPublicKey{}]: a zero specifier and a nil key. *)
Definition zeroSiaPublicKey : SiaPublicKey := MkSiaPublicKey (repeat 0 16) [].

Record HostAnnouncement := MkHostAnnouncement {
  Specifier : list Z;
  NetAddress : string;
  PublicKey : SiaPublicKey
}.

Section Codec.
(** [types.SignatureEd25519]. *)
Variable SignatureEd25519 : list Z.
(** [encoding.Marshal] of a [HostAnnouncement]. *)
Variable Marshal : HostAnnouncement -> list Z.
(** [dec.Decode(&ha)] and [dec.Decode(&sig)] on a stream: the decoded
    value and the rest of the stream, or the decoding error. *)
Variable decodeAnnouncement : list Z -> Err + (HostAnnouncement * list Z).
Variable decodeSignature : list Z -> Err + (list Z * list Z).
(** [crypto.HashBytes], [crypto.SignHash], [crypto.VerifyHash]. *)
Variable HashBytes : list Z -> Z.
Variable SignHash : Z -> list Z -> Err + list Z.
Variable VerifyHash : Z -> list Z -> list Z -> option Err.

(** [crypto.HashObject]: the hash of the encoding. *)
Definition HashObject (ha : HostAnnouncement) : Z := HashBytes (Marshal ha).

(** [CreateAnnouncement]. *)
Definition CreateAnnouncement (addr : string) (pk : SiaPublicKey) (sk : list Z)
    : Err + list Z :=
  let annBytes := Marshal (MkHostAnnouncement PrefixHostAnnouncement addr pk) in
  let annHash := HashBytes annBytes in
  match SignHash annHash sk with
  | inl err => inl err
  | inr sig => inr (annBytes ++ sig)
  end.

(** [DecodeAnnouncement]: the address, the key and the error. *)
Definition DecodeAnnouncement (fullAnnouncement : list Z)
    : string * SiaPublicKey * option Err :=
  match decodeAnnouncement fullAnnouncement with
  | inl err => (""%string, zeroSiaPublicKey, Some err)
  | inr (ha, rest) =>
      if negb (bool_decide (Specifier ha = PrefixHostAnnouncement)) then
        (""%string, zeroSiaPublicKey, Some ErrAnnNotAnnouncement)
      else if negb (bool_decide (Algorithm (PublicKey ha) = SignatureEd25519)) then
        (""%string, zeroSiaPublicKey, Some ErrAnnUnrecognizedSignature)
      else match decodeSignature rest with
      | inl err => (""%string, zeroSiaPublicKey, Some err)
      | inr (sig, _) =>
          let pk := go_copy (repeat 0 32) (Key (PublicKey ha)) in
          let annHash := HashObject ha in
          match VerifyHash annHash pk sig with
          | Some err => (""%string, zeroSiaPublicKey, Some err)
          | None => (NetAddress ha, PublicKey ha, None)
          end
      end
  end.

End Codec.
End Announcement.

(** ** Contract renewals (src/modules/renter/contractor/contractor.go) *)

Module Contractor.

(** [Contractor.resolveID]. The loop does not stop on a renewal cycle; it
    runs on [fuel] ([None] once the fuel is spent). *)
Fixpoint resolveID (fuel : nat) (renewedIDs : gmap Z Z) (id : Z) : option Z :=
  match fuel with
  | O => None
  | S f =>
      match renewedIDs !! id with
      | None => Some id
      | Some newID => resolveID f renewedIDs newID
      end
  end.

(** [Contractor.ContractUtility]: the utility recorded for the most recent
    renewal of [id]. *)
Definition ContractUtility {U : Type} (fuel : nat) (renewedIDs : gmap Z Z)
    (contractUtilities : gmap Z U) (id : Z) : option (option U) :=
  rid ← resolveID fuel renewedIDs id;
  Some (contractUtilities !! rid).

End Contractor.

(** ** A concrete instance of the collaborators

    Transactions are integers: [0] is rejected by [validTransaction],
    any other [t] adds [t] to the value of output [0] (when it exists) and
    its reversal takes it back. Block ids are the nonces. *)
Module Concrete.

Definition applyTx (l : Ledger) (t : Z) : Ledger :=
  set_UnspentOutputs l (alter (fun o => MkOutput (Value o + t) (SpendHash o)) 0 (UnspentOutputs l)).

Definition reverseTx (l : Ledger) (t : Z) : Ledger :=
  set_UnspentOutputs l (alter (fun o => MkOutput (Value o - t) (SpendHash o)) 0 (UnspentOutputs l)).

#[export] Instance env : Env Z := {
  ID := Nonce;
  SubsidyID b := 1000 + Nonce b;
  StorageProofOutputID fc cid h st := 2000 + cid * 1000 + h;
  ContractTerminationOutputID fc cid st := 5000 + cid * 10 + (if st then 1 else 0);
  expectedTransactionMerkleRoot b := 0;
  MinerFees t := [];
  validTransaction s t := if t =? 0 then Some (ErrMsg "invalid transaction") else None;
  applyTransaction := applyTx;
  reverseTransaction := reverseTx;
  FutureThreshold := 10800;
  TargetWindow := 5000;
  BlockFrequency := 600;
  MaxAdjustmentUp := 1001 # 1000;
  MaxAdjustmentDown := 999 # 1000
}.

Definition mkBlock (parent nonce : Z) (txns : list Z) : Block Z :=
  MkBlock parent 100 7 nonce 0 txns.

Definition mkNode (b : Block Z) (h : Z) : BlockNode Z :=
  MkBlockNode b h (repeat 0%Z 11) (2 ^ 255) (2 ^ 200) [] [] [].

Definition emptyLedger : Ledger := MkLedger ∅ ∅ ∅.

(** Genesis [G] (id 1) is the tip; [B] (id 2) is its child, attached to
    the tree but not integrated yet. *)
Definition G : Block Z := mkBlock 0 1 [].
Definition B : Block Z := mkBlock 1 2 [].

Definition s_chain : State Z :=
  MkState (mkNode G 0) ∅ (<[2 := mkNode B 1]> {[1 := mkNode G 0]}) 1 {[0 := 1]} emptyLedger.

(** A contract (id 9, behind pointer 50) whose funds are exhausted: it
    terminates at the next integration. *)
Definition fc_done : FileContract := MkFileContract 100 1000 10 3 50 70 80.
Definition oc_done : OpenContract := MkOpenContract fc_done 9 0 0 true.

Definition s_contract : State Z :=
  MkState (mkNode G 0) ∅ (<[2 := mkNode B 1]> {[1 := mkNode G 0]}) 1 {[0 := 1]}
    (MkLedger ∅ {[9 := 50]} {[50 := oc_done]}).

(** The scenario of the spec: [start = 10], [challengeFrequency = 5],
    [missedProofPayout = 50], [fundsRemaining = 100], window not
    satisfied; the tip [P] (id 1) is at height 14 and [B15] (id 2) is its
    child at height 15. *)
Definition fc_window : FileContract := MkFileContract 10 100 5 3 50 70 80.
Definition oc_window : OpenContract := MkOpenContract fc_window 9 100 0 false.

Definition P : Block Z := mkBlock 0 1 [].
Definition B15 : Block Z := mkBlock 1 2 [].

Definition s_window : State Z :=
  MkState (mkNode P 0) ∅ (<[2 := mkNode B15 15]> {[1 := mkNode P 14]}) 1 {[14 := 1]}
    (MkLedger ∅ {[9 := 50]} {[50 := oc_window]}).

(** A reorganisation: the tip is [X] (id 2) on top of genesis [G]; the
    competing child [Y] (id 3) carries an invalid transaction. *)
Definition X : Block Z := mkBlock 1 2 [].
Definition Y : Block Z := mkBlock 1 3 [0].

Definition nodeG_fork : BlockNode Z :=
  MkBlockNode G 0 (repeat 0%Z 11) (2 ^ 255) (2 ^ 200) [2; 3] [] [].

Definition s_fork : State Z :=
  MkState nodeG_fork ∅ (<[3 := mkNode Y 1]> (<[2 := mkNode X 1]> {[1 := nodeG_fork]})) 2
    (<[1 := 2]> {[0 := 1]}) emptyLedger.

(** A block whose timestamp equals the median (0) of genesis' recent
    timestamps, and a block whose id equals the target [2 ^ 255]. *)
Definition B_median : Block Z := MkBlock 1 0 7 2 0 [].
Definition B_at_target : Block Z := MkBlock 1 100 7 (2 ^ 255) 0 [].

(** A block whose second transaction is invalid, on a ledger where output
    [0] exists. *)
Definition B_bad : Block Z := MkBlock 1 100 7 2 0 [5; 0; 3].

Definition s_txn : State Z :=
  MkState (mkNode G 0) ∅ (<[2 := mkNode B_bad 1]> {[1 := mkNode G 0]}) 1 {[0 := 1]}
    (MkLedger {[0 := MkOutput 10 7]} ∅ ∅).

End Concrete.

(** More concrete states, over the same collaborators. *)
Module ConcreteMore.
Import Concrete.

(** A child of genesis with id 5, and one whose Merkle root is wrong. *)
Definition b5 : Block Z := mkBlock 1 5 [].
Definition b_merkle : Block Z := MkBlock 1 100 7 5 1 [].

(** The tip [B] (id 2, height 1) is deeper in work than any new child of
    genesis: a second child of genesis is a side branch. *)
Definition tipB : BlockNode Z := MkBlockNode B 1 (repeat 0%Z 11) (2 ^ 255) (2 ^ 199) [] [] [].

Definition s_side : State Z :=
  MkState (mkNode G 0) ∅ (<[2 := tipB]> {[1 := mkNode G 0]}) 2 (<[1 := 2]> {[0 := 1]})
    emptyLedger.

(** The contract of [s_window] when the tip is [B15] at height 15, where
    its window closes. *)
Definition s_missed : State Z :=
  MkState (mkNode P 0) ∅ {[2 := mkNode B15 15]} 2 {[15 := 2]}
    (MkLedger ∅ {[9 := 50]} {[50 := oc_window]}).

(** A node with a zero depth. *)
Definition node_zero_depth : BlockNode Z :=
  MkBlockNode G 0 (repeat 0%Z 11) (2 ^ 255) 0 [] [] [].

(** Renewals: contract 1 renewed as 2, then as 3; 5 and 6 renew each
    other. *)
Definition renewals : gmap Z Z := <[2 := 3]> {[1 := 2]}.
Definition renewal_cycle : gmap Z Z := <[6 := 5]> {[5 := 6]}.
Definition utilities : gmap Z Z := {[3 := 42]}.

End ConcreteMore.

(** A concrete codec: length-prefixed chunks, a 64-byte signature, and a
    toy signature scheme whose secret key is the public key. *)
Module ConcreteCodec.
Import Announcement.

Definition string_of_bytes (l : list Z) : string :=
  string_of_list_ascii (map (fun z => Ascii.ascii_of_N (Z.to_N z)) l).

Definition chunk (x : list Z) : list Z := Z.of_nat (length x) :: x.

Definition take_chunk (l : list Z) : option (list Z * list Z) :=
  match l with
  | [] => None
  | n :: r =>
      if (0 <=? n) && (Z.to_nat n <=? length r)%nat
      then Some (firstn (Z.to_nat n) r, skipn (Z.to_nat n) r) else None
  end.

Definition eof := ErrMsg "EOF".

Definition encodeString (s : string) : list Z := chunk (bytes_of_string s).

Definition decodeString (l : list Z) : Err + string :=
  match take_chunk l with
  | Some (x, _) => inr (string_of_bytes x)
  | None => inl eof
  end.

Definition ed25519 : list Z := specifier "ed25519".

Definition marshalAnn (ha : HostAnnouncement) : list Z :=
  chunk (Specifier ha) ++ chunk (bytes_of_string (NetAddress ha)) ++
  chunk (Algorithm (PublicKey ha)) ++ chunk (Key (PublicKey ha)).

Definition decodeAnn (l : list Z) : Err + (HostAnnouncement * list Z) :=
  match take_chunk l with
  | None => inl eof
  | Some (sp, l) =>
      match take_chunk l with
      | None => inl eof
      | Some (addr, l) =>
          match take_chunk l with
          | None => inl eof
          | Some (alg, l) =>
              match take_chunk l with
              | None => inl eof
              | Some (key, l) =>
                  inr (MkHostAnnouncement sp (string_of_bytes addr) (MkSiaPublicKey alg key), l)
              end
          end
      end
  end.

Definition decodeSig (l : list Z) : Err + (list Z * list Z) :=
  if (64 <=? length l)%nat then inr (firstn 64 l, skipn 64 l) else inl eof.

Definition hashBytes (l : list Z) : Z := fold_left (fun acc d => acc * 257 + d + 1) l 0.

Definition signHash (h : Z) (sk : list Z) : Err + list Z := inr (repeat (h + be_to_Z sk) 64).

Definition verifyHash (h : Z) (pk sig : list Z) : option Err :=
  if bool_decide (sig = repeat (h + be_to_Z pk) 64) then None
  else Some (ErrMsg "invalid signature").

Definition hostKey : SiaPublicKey := MkSiaPublicKey ed25519 [1; 2; 3].
Definition hostSecret : list Z := go_copy (repeat 0 32) [1; 2; 3].

End ConcreteCodec.

(** * Properties *)

Module Scenarios.
Import Concrete.

(** Claim C1 (apply/reverse round trip): integrating the empty block [B]
    on top of genesis and rewinding it does not give back the initial
    state: [rewindABlock] deletes the path entry of the parent's height
    (height 0) instead of the rewound block's, and never removes the miner
    subsidy output of [B]. *)
Lemma roundtrip_fails :
  match integrateBlock s_chain B with
  | Some (None, s1) =>
      match rewindABlock s1 with
      | Some s2 =>
          CurrentBlock s2 = CurrentBlock s_chain /\
          CurrentPath s2 ≠ CurrentPath s_chain /\
          UnspentOutputs (SLedger s2) ≠ UnspentOutputs (SLedger s_chain)
      | None => False
      end
  | _ => False
  end.
Proof.
  vm_compute. split; [reflexivity|]. split; discriminate.
Qed.

(** Claim C2 (undo-log placement): when [B] (id 2, height 1) is
    integrated and the contract behind pointer 50 terminates, the
    termination is appended to the undo log of the parent node (id 1), and
    the undo log of [B]'s own node stays empty. *)
Lemma undo_log_on_parent :
  match integrateBlock s_contract B with
  | Some (None, s1) =>
      (ContractTerminations <$> BlockMap s1 !! 1) = Some [50] /\
      (ContractTerminations <$> BlockMap s1 !! 2) = Some [] /\
      OpenContracts (SLedger s1) = ∅
  | _ => False
  end.
Proof. vm_compute. repeat split. Qed.

(** Claim C3 (maintenance height): integrating the block [B15] of height
    15 does not roll the window of the contract with [start = 10] and
    [challengeFrequency = 5] over, although [(15 - 10) mod 5 = 0] and
    [15 > 10]: no missed-proof output is created and the contract keeps
    its funds and failure count, because the maintenance runs at the
    parent's height 14. *)
Lemma maintenance_at_parent_height :
  (ContractTerminations <$> BlockMap s_window !! 2) = Some [] /\
  Height <$> (BlockMap s_window !! ID B15) = Some 15 /\
  (15 - Start fc_window) mod ChallengeFrequency fc_window = 0 /\
  Start fc_window < 15 /\ WindowSatisfied oc_window = false /\
  match integrateBlock s_window B15 with
  | Some (None, s1) =>
      Heap (SLedger s1) !! 50 = Some oc_window /\
      UnspentOutputs (SLedger s1) !! StorageProofOutputID fc_window 9 15 false = None
  | _ => False
  end.
Proof. vm_compute. repeat split. Qed.

(** Claim C4 (reorg error): the fork block [Y] fails integration, is
    invalidated and the rewound tip [X] is re-integrated, and
    [forkBlockchain] returns a nil error: the successful re-integration of
    [X] overwrote [err]. *)
Lemma fork_error_lost :
  integrateBlock (set_CurrentBlock s_fork 1) Y =
    Some (Some (ErrMsg "invalid transaction"), set_BadBlocks (set_CurrentBlock s_fork 1) {[3]}) /\
  match forkBlockchain 10 s_fork (mkNode Y 1) with
  | Some (err, s1) => err = None /\ CurrentBlock s1 = 2 /\ 3 ∈ BadBlocks s1
  | None => False
  end.
Proof.
  split.
  - vm_compute. reflexivity.
  - vm_compute. split; [reflexivity|]. split; [reflexivity|]. set_solver.
Qed.

End Scenarios.

(** ** Transactions of a block *)

Section TransactionLoop.
Context {Transaction : Type} `{!Env Transaction}.

(** A valid transaction is undone by its reversal (the contract that
    [reverseTransaction] has with [applyTransaction]). *)
Hypothesis reverse_apply : forall (s : State Transaction) (t : Transaction),
  validTransaction s t = None ->
  reverseTransaction (applyTransaction (SLedger s) t) t = SLedger s.

Lemma set_Ledger_SLedger (s : State Transaction) : set_Ledger s (SLedger s) = s.
Proof. by destruct s. Qed.

Lemma validPrefix_frame (s sk : State Transaction) pre :
  validPrefix s pre = Some sk ->
  sk = set_Ledger s (SLedger sk) /\ reverseTxns (SLedger sk) pre = SLedger s.
Proof.
  revert s. induction pre as [|t pre IH]; intros s Hv; simpl in Hv.
  - inversion Hv; subst. split; [by rewrite set_Ledger_SLedger | reflexivity].
  - destruct (validTransaction s t) eqn:Ht; [discriminate|].
    destruct (IH _ Hv) as [Hsk Hrev]. split.
    + rewrite Hsk. by destruct s.
    + unfold reverseTxns in *. simpl. rewrite fold_left_app, Hrev. simpl.
      by apply reverse_apply.
Qed.

Lemma applyTxns_fail (s sk : State Transaction) bid pre t rest applied sub e :
  validPrefix s pre = Some sk -> validTransaction sk t = Some e ->
  exists sub',
    applyTxns s bid (pre ++ t :: rest) applied sub =
      (Some e, set_BadBlocks sk ({[bid]} ∪ BadBlocks sk), applied ++ pre, sub').
Proof.
  revert s applied sub. induction pre as [|t0 pre IH]; intros s applied sub Hv He;
    simpl in Hv.
  - inversion Hv; subst. simpl. rewrite He. exists sub. by rewrite app_nil_r.
  - destruct (validTransaction s t0) eqn:Ht; [discriminate|].
    simpl. rewrite Ht. destruct (IH _ (applied ++ [t0])
      (fold_left Z.add (MinerFees t0) sub) Hv He) as [sub' Heq].
    exists sub'. rewrite Heq, <- app_assoc. reflexivity.
Qed.

(** Claim C5 (invalid-transaction atomicity): when the transactions
    before [t] are valid in turn and [t] is rejected with [e],
    [integrateBlock] returns [e], the applied transactions are reversed in
    reverse order so that the ledger, the tip and the path are those of
    the call, and only [b.ID()] is added to [BadBlocks]. *)
Theorem integrateBlock_invalid_txn (s sk : State Transaction) (b : Block Transaction)
    pre t rest e :
  Transactions b = pre ++ t :: rest ->
  validPrefix s pre = Some sk ->
  validTransaction sk t = Some e ->
  integrateBlock s b = Some (Some e, set_BadBlocks s ({[ID b]} ∪ BadBlocks s)).
Proof.
  intros Htx Hv He. unfold integrateBlock. rewrite Htx.
  destruct (applyTxns_fail s sk (ID b) pre t rest [] 0 e Hv He) as [sub' ->].
  destruct (validPrefix_frame s sk pre Hv) as [Hsk Hrev]. simpl.
  f_equal. f_equal. rewrite Hsk. simpl. rewrite Hrev. by destruct s.
Qed.

End TransactionLoop.

(** ** Big-endian bytes *)

Lemma length_be n x : length (be n x) = n.
Proof.
  revert x. induction n as [|n IH]; intros x; [reflexivity|].
  simpl. rewrite length_app, IH. simpl. lia.
Qed.

Lemma bytes_compare_app l1 l2 m1 m2 :
  length l1 = length l2 ->
  bytes_compare (l1 ++ m1) (l2 ++ m2) =
    match bytes_compare l1 l2 with Eq => bytes_compare m1 m2 | c => c end.
Proof.
  revert l2. induction l1 as [|a l1 IH]; intros [|b l2] Hlen; simpl in *;
    try discriminate; [reflexivity|].
  destruct (Z.compare a b); [apply IH; lia | reflexivity | reflexivity].
Qed.

Lemma Z_compare_digits x y :
  Z.compare x y =
    match Z.compare (x / 256) (y / 256) with
    | Eq => Z.compare (x mod 256) (y mod 256)
    | c => c
    end.
Proof.
  pose proof (Z.div_mod x 256 ltac:(lia)). pose proof (Z.div_mod y 256 ltac:(lia)).
  pose proof (Z.mod_pos_bound x 256 ltac:(lia)). pose proof (Z.mod_pos_bound y 256 ltac:(lia)).
  set (qx := x / 256) in *. set (qy := y / 256) in *.
  set (rx := x mod 256) in *. set (ry := y mod 256) in *.
  destruct (Z.compare_spec qx qy);
    [destruct (Z.compare_spec rx ry) | |].
  all: first [apply Z.compare_eq_iff | apply Z.compare_lt_iff | apply Z.compare_gt_iff]; lia.
Qed.

(** Lexicographic comparison of big-endian byte strings of the same width
    is the comparison of the numbers they encode. *)
Lemma bytes_compare_be n x y :
  0 <= x < 256 ^ Z.of_nat n -> 0 <= y < 256 ^ Z.of_nat n ->
  bytes_compare (be n x) (be n y) = Z.compare x y.
Proof.
  revert x y. induction n as [|n IH]; intros x y Hx Hy.
  - simpl in *. assert (x = 0) by lia. assert (y = 0) by lia. subst. reflexivity.
  - rewrite Nat2Z.inj_succ, Z.pow_succ_r in Hx, Hy by lia.
    simpl. rewrite bytes_compare_app by (rewrite !length_be; reflexivity).
    rewrite IH.
    + rewrite (Z_compare_digits x y).
      destruct (Z.compare (x / 256) (y / 256)); [|reflexivity|reflexivity].
      simpl. destruct (Z.compare (x mod 256) (y mod 256)); reflexivity.
    + split; [apply Z.div_pos; lia | apply Z.div_lt_upper_bound; lia].
    + split; [apply Z.div_pos; lia | apply Z.div_lt_upper_bound; lia].
Qed.

Lemma pow_256_32 : 256 ^ Z.of_nat 32 = 2 ^ 256.
Proof. reflexivity. Qed.

(** [checkTarget] accepts exactly the ids at most the target. *)
Lemma checkTarget_le {Transaction : Type} `{!Env Transaction} (b : Block Transaction) target :
  0 <= ID b < 2 ^ 256 -> 0 <= target < 2 ^ 256 ->
  checkTarget b target = negb (target <? ID b).
Proof.
  intros Hb Ht. unfold checkTarget. rewrite <- pow_256_32 in Hb, Ht.
  rewrite bytes_compare_be by assumption.
  destruct (Z.compare_spec target (ID b)); destruct (Z.ltb_spec target (ID b)); simpl;
    reflexivity || lia.
Qed.

(** ** Header validation *)

Lemma length_insert_sorted x l : length (insert_sorted x l) = S (length l).
Proof.
  induction l as [|y l IH]; simpl; [reflexivity|].
  destruct (x <=? y); simpl; [reflexivity | by rewrite IH].
Qed.

Lemma length_sort_ints l : length (sort_ints l) = length l.
Proof.
  induction l as [|x l IH]; simpl; [reflexivity|]. by rewrite length_insert_sorted, IH.
Qed.

Section Header.
Context {Transaction : Type} `{!Env Transaction}.

Lemma nth_error_median (parent : BlockNode Transaction) :
  length (RecentTimestamps parent) = 11%nat ->
  nth_error (sort_ints (RecentTimestamps parent)) 5 = Some (median parent).
Proof.
  intros Hlen. unfold median. apply nth_error_nth'. rewrite length_sort_ints, Hlen. lia.
Qed.

(** Claim C6, as the code has it: a block no more than [FutureThreshold]
    ahead of [now] is rejected as too early, and marked bad, exactly when
    its timestamp is strictly below the median of the parent's eleven
    recent timestamps; a timestamp equal to the median passes this
    check. *)
Theorem validateHeader_too_early (s : State Transaction) (parent : BlockNode Transaction)
    (b : Block Transaction) (now : Z) :
  length (RecentTimestamps parent) = 11%nat ->
  wrap64s (Timestamp b - now) <= FutureThreshold ->
  (Timestamp b < median parent ->
     validateHeader s parent b now = Some (Some err_past, set_BadBlocks s ({[ID b]} ∪ BadBlocks s))) /\
  (median parent <= Timestamp b ->
     exists r, validateHeader s parent b now = Some r /\ fst r <> Some err_past).
Proof.
  intros Hlen Hfut. unfold validateHeader.
  destruct (Z.ltb_spec FutureThreshold (wrap64s (Timestamp b - now))); [lia|].
  rewrite nth_error_median by exact Hlen.
  split; intros Hm.
  - destruct (Z.ltb_spec (Timestamp b) (median parent)); [reflexivity | lia].
  - destruct (Z.ltb_spec (Timestamp b) (median parent)); [lia|].
    destruct (negb _); [eexists; split; [reflexivity | simpl; discriminate]|].
    destruct (negb _); (eexists; split; [reflexivity | simpl; discriminate]).
Qed.

(** Claim C7, as the code has it: once the timestamp and Merkle checks
    pass, [validateHeader] fails with the target error exactly when the
    id is greater than the target, lexicographically on the 32-byte
    big-endian arrays (equivalently as numbers); an id equal to the target
    is accepted, and the failure leaves the state, [BadBlocks] included,
    unchanged. *)
Theorem validateHeader_target (s : State Transaction) (parent : BlockNode Transaction)
    (b : Block Transaction) (now : Z) :
  length (RecentTimestamps parent) = 11%nat ->
  wrap64s (Timestamp b - now) <= FutureThreshold ->
  median parent <= Timestamp b ->
  MerkleRoot b = expectedTransactionMerkleRoot b ->
  0 <= ID b < 2 ^ 256 -> 0 <= Target parent < 2 ^ 256 ->
  (bytes_compare (be 32 (ID b)) (be 32 (Target parent)) = Gt <-> Target parent < ID b) /\
  validateHeader s parent b now =
    if Target parent <? ID b then Some (Some err_target, s) else Some (None, s).
Proof.
  intros Hlen Hfut Hm Hmr Hb Ht. split.
  - rewrite <- pow_256_32 in Hb, Ht. rewrite bytes_compare_be by assumption.
    rewrite Z.compare_gt_iff. lia.
  - unfold validateHeader.
    destruct (Z.ltb_spec FutureThreshold (wrap64s (Timestamp b - now))); [lia|].
    rewrite nth_error_median by exact Hlen.
    destruct (Z.ltb_spec (Timestamp b) (median parent)); [lia|].
    rewrite Hmr, Z.eqb_refl, checkTarget_le by assumption. cbn [negb].
    destruct (Target parent <? ID b); reflexivity.
Qed.

End Header.

Module HeaderCounterexamples.
Import Concrete.

(** Claim C6 fails: the timestamp of [B_median] equals the median of the
    parent's timestamps and [validateHeader] accepts it. *)
Lemma median_timestamp_accepted :
  Timestamp B_median = median (mkNode G 0) /\
  validateHeader s_chain (mkNode G 0) B_median 0 = Some (None, s_chain).
Proof. split; vm_compute; reflexivity. Qed.

(** Claim C7 fails: the id of [B_at_target] equals the parent's target
    and [validateHeader] accepts it. *)
Lemma id_equal_target_accepted :
  ID B_at_target = Target (mkNode G 0) /\
  validateHeader s_chain (mkNode G 0) B_at_target 0 = Some (None, s_chain).
Proof. split; vm_compute; reflexivity. Qed.

End HeaderCounterexamples.

(** ** Fork choice *)

Lemma ratInv_spec x : x <> 0 -> exists q, ratInv x = Some q /\ q == Qinv (inject_Z x).
Proof.
  intros Hx. unfold ratInv, newRat.
  destruct x as [|p|p]; [lia| |]; simpl; eexists; split; reflexivity.
Qed.

Section ForkChoice.
Context {Transaction : Type} `{!Env Transaction}.

(** Claim C8: with non-zero depths and target, [heavierFork n] returns a
    boolean, and it is true exactly when
    [1/I(n.Depth) > 1/I(tip.Depth) + 5/100 * (1/I(tip.Target))] as exact
    rationals. *)
Theorem heavierFork_spec (s : State Transaction) (n tip : BlockNode Transaction) :
  currentBlockNode s = Some tip ->
  Depth n <> 0 -> Depth tip <> 0 -> Target tip <> 0 ->
  exists r, heavierFork s n = Some r /\
    (r = true <->
     Qlt (Qplus (Qinv (inject_Z (Depth tip))) (Qmult (5 # 100) (Qinv (inject_Z (Target tip)))))
         (Qinv (inject_Z (Depth n)))).
Proof.
  intros Hcur Hn Hd Ht.
  destruct (ratInv_spec _ Hn) as [qn [Hqn Eqn]].
  destruct (ratInv_spec _ Hd) as [qd [Hqd Eqd]].
  destruct (ratInv_spec _ Ht) as [qt [Hqt Eqt]].
  unfold heavierFork, currentBlockWeight, StateDepth. rewrite Hcur. simpl.
  rewrite Hqt. simpl. rewrite Hqd. simpl. rewrite Hqn. simpl.
  eexists. split; [reflexivity|].
  rewrite <- Eqn, <- Eqd, <- Eqt, (Qmult_comm (5 # 100) qt).
  unfold SurpassThreshold. split.
  - intros H. apply Qgt_alt. destruct (Qcompare _ _); congruence.
  - intros H. apply Qgt_alt in H. rewrite H. reflexivity.
Qed.

End ForkChoice.

(** ** Negotiation *)

Module NegotiationFacts.
Import Negotiation.

(** Claim C9: [ReadNegotiationAcceptance] decodes the response from at
    most [MaxErrorSize = 256] bytes of the connection; it returns nil
    exactly when the decoded string is ["accept"], the error [s] for any
    other decoded string [s], and the decoding error otherwise. *)
Theorem ReadNegotiationAcceptance_spec (decodeString : list Z -> Err + string) (conn : list Z) :
  MaxErrorSize = 256 /\
  ReadNegotiationAcceptance decodeString conn =
    ReadNegotiationAcceptance decodeString (firstn 256 conn) /\
  (ReadNegotiationAcceptance decodeString conn = None <->
     decodeString (firstn 256 conn) = inr AcceptResponse) /\
  (forall s, decodeString (firstn 256 conn) = inr s -> s <> AcceptResponse ->
     ReadNegotiationAcceptance decodeString conn = Some (ErrMsg s)) /\
  (forall e, decodeString (firstn 256 conn) = inl e ->
     ReadNegotiationAcceptance decodeString conn = Some e).
Proof.
  unfold ReadNegotiationAcceptance, ReadObject, MaxErrorSize.
  change (Z.to_nat 256) with 256%nat.
  rewrite List.firstn_firstn. change (Nat.min 256 256) with 256%nat.
  split; [reflexivity|]. split; [reflexivity|]. split; [|split].
  - destruct (decodeString (firstn 256 conn)) as [e|r]; [split; discriminate|].
    destruct (String.eqb_spec r AcceptResponse); subst; split; congruence.
  - intros r Hd Hne. rewrite Hd. destruct (String.eqb_spec r AcceptResponse); congruence.
  - intros e Hd. by rewrite Hd.
Qed.

End NegotiationFacts.

(** ** Retarget *)

Lemma be_to_Z_snoc l d : be_to_Z (l ++ [d]) = be_to_Z l * 256 + d.
Proof. unfold be_to_Z. by rewrite fold_left_app. Qed.

Lemma be_to_Z_be n x : be_to_Z (be n x) = x mod 256 ^ Z.of_nat n.
Proof.
  revert x. induction n as [|n IH]; intros x.
  - simpl. by rewrite Z.mod_1_r.
  - simpl be. rewrite be_to_Z_snoc, IH, Nat2Z.inj_succ, Z.pow_succ_r by lia.
    rewrite Z.rem_mul_r by (try apply Z.pow_pos_nonneg; lia). lia.
Qed.

Lemma fold_left_repeat_zero k :
  fold_left (fun acc d => acc * 256 + d) (repeat 0 k) 0 = 0.
Proof. induction k as [|k IH]; [reflexivity|]. simpl. exact IH. Qed.

Lemma be_to_Z_pad k l : be_to_Z (repeat 0 k ++ l) = be_to_Z l.
Proof. unfold be_to_Z. by rewrite fold_left_app, fold_left_repeat_zero. Qed.

Lemma be_zero k : be k 0 = repeat 0 k.
Proof.
  induction k as [|k IH]; [reflexivity|].
  cbn [be]. change (0 / 256) with 0. change (0 mod 256) with 0.
  rewrite IH. replace (S k) with (k + 1)%nat by lia.
  rewrite repeat_app. reflexivity.
Qed.

(** Left padding with zero bytes gives the wider big-endian encoding. *)
Lemma be_pad k n x : 0 <= x < 256 ^ Z.of_nat n -> be (k + n) x = repeat 0 k ++ be n x.
Proof.
  revert x. induction n as [|n IH]; intros x Hx.
  - simpl in Hx. assert (x = 0) by lia. subst. by rewrite Nat.add_0_r, be_zero, app_nil_r.
  - rewrite Nat2Z.inj_succ, Z.pow_succ_r in Hx by lia.
    rewrite Nat.add_succ_r. simpl be. rewrite IH, app_assoc; [reflexivity|].
    split; [apply Z.div_pos; lia | apply Z.div_lt_upper_bound; lia].
Qed.

Lemma pow256_pow2 m : 0 <= m -> 256 ^ m = 2 ^ (8 * m).
Proof. intros Hm. rewrite Z.pow_mul_r by lia. reflexivity. Qed.

Lemma byte_len_bound v : 0 <= v -> v < 256 ^ Z.of_nat (byte_len v).
Proof.
  intros Hv. unfold byte_len. destruct (Z.leb_spec v 0).
  - simpl. lia.
  - pose proof (Z.log2_nonneg v). pose proof (Z.log2_spec v ltac:(lia)) as [_ Hlt].
    pose proof (Z.div_pos (Z.log2 v) 8 ltac:(lia) ltac:(lia)).
    rewrite Z2Nat.id by lia. rewrite pow256_pow2 by lia.
    eapply Z.lt_le_trans; [exact Hlt|]. apply Z.pow_le_mono_r; [lia|].
    rewrite <- Z.add_1_r. pose proof (Z.mod_pos_bound (Z.log2 v) 8 ltac:(lia)).
    pose proof (Z.div_mod (Z.log2 v) 8 ltac:(lia)). lia.
Qed.

Lemma byte_len_le_32 v : 0 <= v -> ((byte_len v <= 32)%nat <-> v < 2 ^ 256).
Proof.
  intros Hv. unfold byte_len. destruct (Z.leb_spec v 0).
  - split; intros; lia.
  - pose proof (Z.log2_nonneg v). split.
    + intros Hle. assert (Z.log2 v / 8 <= 31) by lia.
      assert (Z.log2 v < 256).
      { pose proof (Z.div_mod (Z.log2 v) 8 ltac:(lia)).
        pose proof (Z.mod_pos_bound (Z.log2 v) 8 ltac:(lia)). lia. }
      rewrite Z.log2_lt_pow2 by lia. lia.
    + intros Hlt. rewrite Z.log2_lt_pow2 in Hlt by lia.
      assert (Z.log2 v / 8 < 32) by (apply Z.div_lt_upper_bound; lia). lia.
Qed.

Section Retarget.
Context {Transaction : Type} `{!Env Transaction}.

Lemma adjustedTarget_nonneg (s : State Transaction) (parentNode newNode : BlockNode Transaction) v :
  Qle 0 MaxAdjustmentDown -> Qle 0 MaxAdjustmentUp -> 0 <= Target parentNode ->
  adjustedTarget s parentNode newNode = Some v -> 0 <= v.
Proof.
  intros HD HU HT Hv. unfold adjustedTarget in Hv.
  destruct (targetAdjustment s newNode) as [adj|] eqn:Ha; [|discriminate].
  simpl in Hv. injection Hv as <-.
  assert (Hadj : Qle 0 adj).
  { unfold targetAdjustment in Ha.
    destruct (_ : option (Z * Z)) as [[tp ep]|]; [|discriminate]. simpl in Ha.
    destruct (newRat tp ep) as [q|]; [|discriminate]. simpl in Ha. injection Ha as <-.
    destruct (Qcompare q MaxAdjustmentUp); try exact HU;
      destruct (Qcompare q MaxAdjustmentDown) eqn:Hd; try exact HD;
      apply Qle_trans with MaxAdjustmentDown; try exact HD;
      apply Qnot_lt_le; rewrite Qlt_alt; congruence.
  }
  apply Z.div_pos; [|lia]. simpl. unfold Qle in Hadj. simpl in Hadj. nia.
Qed.

(** Claim C10: writing [v] for the truncated adjusted target
    [floor(parent.Target * adjustment)] computed by [childTarget]: when
    [v >= 2 ^ 256] the copy offset is negative and [childTarget] panics;
    when [v < 2 ^ 256] it returns [v], as the 32-byte array of [v]'s
    bytes left-padded with zeros, that is its 32-byte big-endian
    encoding. The adjustment bounds are non-negative and the parent's
    target is a 256-bit number. *)
Theorem childTarget_spec (s : State Transaction) (parentNode newNode : BlockNode Transaction) v :
  Qle 0 MaxAdjustmentDown -> Qle 0 MaxAdjustmentUp -> 0 <= Target parentNode ->
  adjustedTarget s parentNode newNode = Some v ->
  (2 ^ 256 <= v -> childTargetBytes s parentNode newNode = None /\
                   childTarget s parentNode newNode = None) /\
  (v < 2 ^ 256 ->
     childTargetBytes s parentNode newNode =
       Some (repeat 0 (32 - byte_len v) ++ int_bytes v) /\
     repeat 0 (32 - byte_len v) ++ int_bytes v = be 32 v /\
     childTarget s parentNode newNode = Some v).
Proof.
  intros HD HU HT Hv.
  pose proof (adjustedTarget_nonneg s parentNode newNode v HD HU HT Hv) as Hpos.
  assert (Hib : int_bytes v = be (byte_len v) v).
  { unfold int_bytes. by rewrite Z.abs_eq. }
  unfold childTarget, childTargetBytes. rewrite Hv. simpl.
  rewrite Hib, length_be. split.
  - intros Hge. assert (Hn : ~ (byte_len v <= 32)%nat).
    { rewrite byte_len_le_32 by exact Hpos. lia. }
    destruct (Z.ltb_spec (32 - Z.of_nat (byte_len v)) 0); [split; reflexivity | lia].
  - intros Hlt. assert (Hn : (byte_len v <= 32)%nat) by (apply byte_len_le_32; lia).
    destruct (Z.ltb_spec (32 - Z.of_nat (byte_len v)) 0); [lia|].
    replace (Z.to_nat (32 - Z.of_nat (byte_len v))) with (32 - byte_len v)%nat by lia.
    assert (Hpad : repeat 0 (32 - byte_len v) ++ be (byte_len v) v = be 32 v).
    { rewrite <- be_pad by (split; [lia | apply byte_len_bound; lia]).
      f_equal. lia. }
    split; [reflexivity|]. split; [exact Hpad|].
    simpl. rewrite be_to_Z_pad, be_to_Z_be. f_equal.
    apply Z.mod_small. split; [lia | apply byte_len_bound; lia].
Qed.

End Retarget.

(** ** Witnesses on the concrete collaborators *)

(** ** Block ingestion: [checkMaps], [addBlockToTree], [childDepth],
    [AcceptBlock] *)

Section BlockTree.
Context {Transaction : Type} `{!Env Transaction}.

Lemma validateHeader_cases (s s' : State Transaction) (parent : BlockNode Transaction) b now e :
  validateHeader s parent b now = Some (e, s') ->
  s' = s \/ (s' = set_BadBlocks s ({[ID b]} ∪ BadBlocks s) /\
             (e = Some err_past \/ e = Some err_merkle)).
Proof.
  unfold validateHeader. intros H.
  destruct (FutureThreshold <? _); [injection H as <- <-; by left|].
  destruct (nth_error _ 5) as [ts5|]; [|discriminate].
  destruct (Timestamp b <? ts5); [injection H as <- <-; right; auto|].
  destruct (negb (MerkleRoot b =? _)); [injection H as <- <-; right; auto|].
  destruct (negb (checkTarget b _)); injection H as <- <-; by left.
Qed.

(** [AcceptBlock] of a known-invalid block, of a block already in the
    tree and of an orphan: the first check that applies, in this order,
    gives the error; the state is unchanged and nothing is broadcast. *)
Theorem AcceptBlock_dedup fuel (s : State Transaction) (b : Block Transaction) now :
  (ID b ∈ BadBlocks s ->
     AcceptBlock fuel s b now = Some (Some err_known_invalid, s, [])) /\
  (ID b ∉ BadBlocks s -> is_Some (BlockMap s !! ID b) ->
     AcceptBlock fuel s b now = Some (Some err_in_block_map, s, [])) /\
  (ID b ∉ BadBlocks s -> BlockMap s !! ID b = None -> BlockMap s !! ParentBlock b = None ->
     AcceptBlock fuel s b now = Some (Some err_orphan, s, [])).
Proof.
  unfold AcceptBlock, checkMaps. split; [|split].
  - intros Hb. by rewrite decide_True.
  - intros Hb [x Hx]. by rewrite decide_False, Hx.
  - intros Hb Hx Hp. by rewrite decide_False, Hx, Hp.
Qed.

(** A header rejected by [validateHeader] stops [AcceptBlock] with that
    error: the block is not added to the tree, the tip, the path and the
    ledger are unchanged, and the only possible change is [b.ID()] added
    to [BadBlocks] (for a timestamp in the past or a wrong Merkle root). *)
Theorem AcceptBlock_header_reject fuel (s s1 : State Transaction) (b : Block Transaction)
    now parent e :
  checkMaps s b = inr parent ->
  validateHeader s parent b now = Some (Some e, s1) ->
  AcceptBlock fuel s b now = Some (Some e, s1, []) /\
  BlockMap s1 = BlockMap s /\ CurrentBlock s1 = CurrentBlock s /\
  CurrentPath s1 = CurrentPath s /\ SLedger s1 = SLedger s /\
  (s1 = s \/ (s1 = set_BadBlocks s ({[ID b]} ∪ BadBlocks s) /\
              (e = err_past \/ e = err_merkle))).
Proof.
  intros Hc Hv. unfold AcceptBlock. rewrite Hc, Hv. simpl.
  split; [reflexivity|].
  destruct (validateHeader_cases _ _ _ _ _ _ Hv) as [->|[-> [He|He]]];
    [|injection He as ->..]; simpl; auto 10.
Qed.

(** [AcceptBlock] broadcasts the block exactly when it returns nil, and
    broadcasts nothing when it returns an error. *)
Theorem AcceptBlock_broadcast fuel (s s' : State Transaction) (b : Block Transaction) now e bc :
  AcceptBlock fuel s b now = Some (e, s', bc) ->
  (e = None /\ bc = [b]) \/ (e <> None /\ bc = []).
Proof.
  unfold AcceptBlock. intros H.
  destruct (checkMaps s b) as [err|parent]; [injection H as <- _ <-; right; split; congruence|].
  destruct (validateHeader s parent b now) as [[[err|] s1]|]; simpl in H; [| |discriminate].
  - injection H as <- _ <-. right. split; congruence.
  - destruct (addBlockToTree s1 parent b) as [[s2 n]|]; simpl in H; [|discriminate].
    destruct (heavierFork s2 n) as [[|]|]; [| |discriminate].
    + destruct (forkBlockchain fuel s2 n) as [[[err|] s3]|]; simpl in H; [| |discriminate].
      * injection H as <- _ <-. right. split; congruence.
      * injection H as <- _ <-. left. split; reflexivity.
    + injection H as <- _ <-. left. split; reflexivity.
Qed.

Lemma go_copy_timestamps (l : list Z) ts :
  length l = 11%nat ->
  <[10%nat := ts]> (go_copy (repeat 0 11) (tail l)) = tail l ++ [ts].
Proof.
  intros Hl.
  do 11 (destruct l as [|? l]; [discriminate|]).
  destruct l; [reflexivity|discriminate].
Qed.

(** [addBlockToTree] builds the child node of [b]: height one more than
    the parent's (as a uint64), the parent's last ten timestamps followed
    by [b]'s, the target and depth of [childTarget] and [childDepth], no
    children and empty undo logs. It stores the node under [b.ID()],
    appends [b.ID()] to the parent's children, and changes nothing else. *)
Theorem addBlockToTree_spec (s s' : State Transaction) (parent n : BlockNode Transaction) b :
  length (RecentTimestamps parent) = 11%nat ->
  ID b <> ID (NBlock parent) ->
  addBlockToTree s parent b = Some (s', n) ->
  NBlock n = b /\ Height n = wrap64 (Height parent + 1) /\
  RecentTimestamps n = tail (RecentTimestamps parent) ++ [Timestamp b] /\
  length (RecentTimestamps n) = 11%nat /\
  childTarget s parent n = Some (Target n) /\ childDepth parent = Some (Depth n) /\
  Children n = [] /\ ContractTerminations n = [] /\ MissedStorageProofs n = [] /\
  BlockMap s' !! ID b = Some n /\
  BlockMap s' !! ID (NBlock parent) = push_child (ID b) <$> BlockMap s !! ID (NBlock parent) /\
  (forall k, k <> ID b -> k <> ID (NBlock parent) -> BlockMap s' !! k = BlockMap s !! k) /\
  BadBlocks s' = BadBlocks s /\ CurrentBlock s' = CurrentBlock s /\
  CurrentPath s' = CurrentPath s /\ SLedger s' = SLedger s.
Proof.
  intros Hl Hne H. unfold addBlockToTree in H.
  rewrite go_copy_timestamps in H by exact Hl.
  destruct (childTarget s parent _) as [target|] eqn:Ht; [|discriminate]. simpl in H.
  destruct (childDepth parent) as [depth|] eqn:Hd; [|discriminate]. simpl in H.
  injection H as <- <-. simpl.
  split; [reflexivity|]. split; [reflexivity|]. split; [reflexivity|].
  split; [rewrite length_app; simpl; destruct (RecentTimestamps parent); simpl in *; lia|].
  split; [exact Ht|]. split; [reflexivity|].
  do 3 (split; [reflexivity|]).
  split; [rewrite lookup_alter_ne by congruence; apply lookup_insert_eq|].
  split; [rewrite lookup_alter_eq, lookup_insert_ne by congruence; reflexivity|].
  split; [intros k Hk1 Hk2; rewrite lookup_alter_ne, lookup_insert_ne by congruence; reflexivity|].
  auto.
Qed.

Lemma copy32_value v :
  0 <= v < 2 ^ 256 ->
  (let bs := int_bytes v in
   let offset := 32 - Z.of_nat (length bs) in
   if offset <? 0 then None else Some (be_to_Z (repeat 0 (Z.to_nat offset) ++ bs))) = Some v.
Proof.
  intros Hv. assert (Hib : int_bytes v = be (byte_len v) v).
  { unfold int_bytes. by rewrite Z.abs_eq by lia. }
  cbv zeta. rewrite Hib, length_be.
  assert (Hn : (byte_len v <= 32)%nat) by (apply byte_len_le_32; lia).
  destruct (Z.ltb_spec (32 - Z.of_nat (byte_len v)) 0); [lia|].
  rewrite be_to_Z_pad, be_to_Z_be. f_equal.
  apply Z.mod_small. split; [lia | apply byte_len_bound; lia].
Qed.

(** [childDepth] of a parent with a positive target and a positive
    256-bit depth is [floor(1 / (1/depth + 1/target))], that is
    [depth * target / (depth + target)]: it is below both the parent's
    depth and its target (the depth of a chain decreases as it grows). *)
Theorem childDepth_spec (parent : BlockNode Transaction) :
  0 < Depth parent < 2 ^ 256 -> 0 < Target parent ->
  childDepth parent = Some (Depth parent * Target parent / (Depth parent + Target parent)) /\
  Depth parent * Target parent / (Depth parent + Target parent) < Depth parent /\
  Depth parent * Target parent / (Depth parent + Target parent) < Target parent.
Proof.
  intros Hd Ht. set (D := Depth parent) in *. set (T := Target parent) in *.
  assert (Hlt1 : D * T / (D + T) < D) by (apply Z.div_lt_upper_bound; nia).
  assert (Hlt2 : D * T / (D + T) < T) by (apply Z.div_lt_upper_bound; nia).
  assert (Hpos : 0 <= D * T / (D + T)) by (apply Z.div_pos; nia).
  split; [|split; assumption].
  unfold childDepth, ratInv, newRat. fold T D.
  destruct (Z.eqb_spec T 0); [lia|]. destruct (Z.ltb_spec 0 T); [|lia].
  destruct (Z.eqb_spec D 0); [lia|]. destruct (Z.ltb_spec 0 D); [|lia].
  simpl.
  rewrite !Z2Pos.id by lia.
  replace (1 * T + 1 * D) with (D + T) by ring.
  rewrite Pos2Z.inj_mul, !Z2Pos.id by lia.
  destruct (Z.eqb_spec (D + T) 0); [lia|]. destruct (Z.ltb_spec 0 (D + T)); [|lia].
  apply copy32_value. lia.
Qed.

(** [childDepth] panics (a [big.Rat] with a zero denominator) when the
    parent's depth or target is zero. *)
Theorem childDepth_zero (parent : BlockNode Transaction) :
  Depth parent = 0 \/ Target parent = 0 -> childDepth parent = None.
Proof.
  unfold childDepth, ratInv, newRat. intros [H|H]; rewrite H; simpl;
    [destruct (Target parent =? 0); [reflexivity|]; destruct (0 <? Target parent)|];
    reflexivity.
Qed.

End BlockTree.

(** ** [invalidateNode] removes exactly a subtree *)

Section Invalidate.
Context {Transaction : Type} `{!Env Transaction}.
Variable M0 : gmap Z (BlockNode Transaction).
Hypothesis M0_consistent : forall k m, M0 !! k = Some m -> ID (NBlock m) = k.

Lemma invalidateNode_frame f : forall (s s' : State Transaction) n,
  BlockMap s ⊆ M0 ->
  (forall k node, M0 !! k = Some node -> BlockMap s !! k = None ->
     forall j, in_subtree M0 node j -> j ∈ BadBlocks s /\ BlockMap s !! j = None) ->
  BlockMap s !! ID (NBlock n) = Some n ->
  invalidateNode f s n = Some s' ->
  BlockMap s' ⊆ BlockMap s /\ BadBlocks s ⊆ BadBlocks s' /\
  BlockRoot s' = BlockRoot s /\ CurrentBlock s' = CurrentBlock s /\
  CurrentPath s' = CurrentPath s /\ SLedger s' = SLedger s /\
  (forall k node, M0 !! k = Some node -> BlockMap s' !! k = None ->
     forall j, in_subtree M0 node j -> j ∈ BadBlocks s' /\ BlockMap s' !! j = None) /\
  (forall j, in_subtree M0 n j -> j ∈ BadBlocks s' /\ BlockMap s' !! j = None) /\
  (forall k, k ∈ BadBlocks s' -> k ∈ BadBlocks s \/ in_subtree M0 n k) /\
  (forall k, BlockMap s' !! k = None -> BlockMap s !! k = None \/ in_subtree M0 n k).
Proof.
  induction f as [|f IH]; intros s s' n Hsub Hinv Hn H; [discriminate|].
  simpl in H. destruct (foldM _ s (Children n)) as [sf|] eqn:Hf; [|discriminate].
  simpl in H. injection H as <-.
  (* the loop over the children *)
  assert (Hloop : forall cs (s0 s1 : State Transaction),
    BlockMap s0 ⊆ M0 ->
    (forall k node, M0 !! k = Some node -> BlockMap s0 !! k = None ->
       forall j, in_subtree M0 node j -> j ∈ BadBlocks s0 /\ BlockMap s0 !! j = None) ->
    foldM (fun s c => match BlockMap s !! c with
                      | Some cn => invalidateNode f s cn
                      | None => Some (set_BadBlocks s ({[c]} ∪ BadBlocks s))
                      end) s0 cs = Some s1 ->
    BlockMap s1 ⊆ BlockMap s0 /\ BadBlocks s0 ⊆ BadBlocks s1 /\
    BlockRoot s1 = BlockRoot s0 /\ CurrentBlock s1 = CurrentBlock s0 /\
    CurrentPath s1 = CurrentPath s0 /\ SLedger s1 = SLedger s0 /\
    (forall k node, M0 !! k = Some node -> BlockMap s1 !! k = None ->
       forall j, in_subtree M0 node j -> j ∈ BadBlocks s1 /\ BlockMap s1 !! j = None) /\
    (forall c j, c ∈ cs ->
       (M0 !! c = None /\ j = c) \/ (exists cn, M0 !! c = Some cn /\ in_subtree M0 cn j) ->
       j ∈ BadBlocks s1 /\ BlockMap s1 !! j = None) /\
    (forall k, k ∈ BadBlocks s1 -> k ∈ BadBlocks s0 \/ exists c, c ∈ cs /\
       ((M0 !! c = None /\ k = c) \/ (exists cn, M0 !! c = Some cn /\ in_subtree M0 cn k))) /\
    (forall k, BlockMap s1 !! k = None -> BlockMap s0 !! k = None \/ exists c, c ∈ cs /\
       ((M0 !! c = None /\ k = c) \/ (exists cn, M0 !! c = Some cn /\ in_subtree M0 cn k)))).
  { induction cs as [|c cs IHcs]; intros s0 s1 Hsub0 Hinv0 Hfold; simpl in Hfold.
    - injection Hfold as <-. split; [reflexivity|]. split; [reflexivity|].
      do 4 (split; [reflexivity|]). split; [exact Hinv0|].
      split; [intros c j Hc; by apply elem_of_nil in Hc|]. split; auto.
    - destruct (match BlockMap s0 !! c with
                | Some cn => invalidateNode f s0 cn
                | None => Some (set_BadBlocks s0 ({[c]} ∪ BadBlocks s0))
                end) as [smid|] eqn:Hstep; [|discriminate].
      simpl in Hfold.
      (* the step from s0 to smid *)
      assert (Hmid : BlockMap smid ⊆ BlockMap s0 /\ BadBlocks s0 ⊆ BadBlocks smid /\
        BlockRoot smid = BlockRoot s0 /\ CurrentBlock smid = CurrentBlock s0 /\
        CurrentPath smid = CurrentPath s0 /\ SLedger smid = SLedger s0 /\
        (forall k node, M0 !! k = Some node -> BlockMap smid !! k = None ->
           forall j, in_subtree M0 node j -> j ∈ BadBlocks smid /\ BlockMap smid !! j = None) /\
        (forall j, (M0 !! c = None /\ j = c) \/ (exists cn, M0 !! c = Some cn /\ in_subtree M0 cn j) ->
           j ∈ BadBlocks smid /\ BlockMap smid !! j = None) /\
        (forall k, k ∈ BadBlocks smid -> k ∈ BadBlocks s0 \/
           ((M0 !! c = None /\ k = c) \/ (exists cn, M0 !! c = Some cn /\ in_subtree M0 cn k))) /\
        (forall k, BlockMap smid !! k = None -> BlockMap s0 !! k = None \/
           ((M0 !! c = None /\ k = c) \/ (exists cn, M0 !! c = Some cn /\ in_subtree M0 cn k)))).
      { destruct (BlockMap s0 !! c) as [cn|] eqn:Hc.
        - assert (HM0c : M0 !! c = Some cn) by (eapply lookup_weaken; eauto).
          assert (Hid : ID (NBlock cn) = c) by (eapply M0_consistent; eauto).
          destruct (IH s0 smid cn Hsub0 Hinv0 ltac:(by rewrite Hid) Hstep)
            as (H1 & H2 & H3 & H4 & H5 & H6 & H7 & H8 & H9 & H10).
          do 7 (split; [assumption|]). split; [|split].
          + intros j [[Hn' _]|[cn' [Hc' Hj]]]; [congruence|].
            rewrite HM0c in Hc'. injection Hc' as <-. auto.
          + intros k Hk. destruct (H9 k Hk); [by left | right; right; eauto].
          + intros k Hk. destruct (H10 k Hk); [by left | right; right; eauto].
        - injection Hstep as <-. simpl.
          split; [reflexivity|]. split; [apply union_subseteq_r|]. do 4 (split; [reflexivity|]).
          split; [|split; [|split]].
          + intros k node Hk Hk' j Hj. destruct (Hinv0 k node Hk Hk' j Hj).
            split; [by apply elem_of_union_r|done].
          + intros j [[_ ->]|[cn [HM0c Hj]]].
            * split; [by apply elem_of_union_l, elem_of_singleton|exact Hc].
            * destruct (Hinv0 c cn HM0c Hc j Hj). split; [by apply elem_of_union_r|done].
          + intros k Hk. apply elem_of_union in Hk as [Hk|Hk]; [|by left].
            apply elem_of_singleton in Hk as ->. right.
            destruct (M0 !! c) as [cn|] eqn:HM0c; [right | left; auto].
            exists cn. split; [reflexivity|].
            rewrite <- (M0_consistent c cn HM0c). constructor.
          + intros k Hk. by left. }
      destruct Hmid as (M1 & M2 & M3 & M4 & M5 & M6 & M7 & M8 & M9 & M10).
      assert (Hsubm : BlockMap smid ⊆ M0) by (etrans; eassumption).
      destruct (IHcs smid s1 Hsubm M7 Hfold)
        as (R1 & R2 & R3 & R4 & R5 & R6 & R7 & R8 & R9 & R10).
      split; [etrans; eassumption|]. split; [etrans; eassumption|].
      split; [congruence|]. split; [congruence|]. split; [congruence|]. split; [congruence|].
      split; [exact R7|]. split; [|split].
      + intros c' j Hc' Hj. apply elem_of_cons in Hc' as [->|Hc'].
        * destruct (M8 j Hj) as [Hb Hm]. split; [by apply R2|].
          eapply lookup_weaken_None; eassumption.
        * eapply R8; eassumption.
      + intros k Hk. destruct (R9 k Hk) as [Hk'|[c' [Hc' Hk']]].
        * destruct (M9 k Hk') as [?|?];
            [by left | right; exists c; split; [apply elem_of_cons; by left|done]].
        * right. exists c'. split; [apply elem_of_cons; by right|done].
      + intros k Hk. destruct (R10 k Hk) as [Hk'|[c' [Hc' Hk']]].
        * destruct (M10 k Hk') as [?|?];
            [by left | right; exists c; split; [apply elem_of_cons; by left|done]].
        * right. exists c'. split; [apply elem_of_cons; by right|done]. }
  destruct (Hloop (Children n) s sf Hsub Hinv Hf)
    as (F1 & F2 & F3 & F4 & F5 & F6 & F7 & F8 & F9 & F10).
  assert (HM0n : M0 !! ID (NBlock n) = Some n) by (eapply lookup_weaken; eauto).
  (* the subtree of [n], child by child *)
  assert (Hsubtree : forall j, in_subtree M0 n j -> j = ID (NBlock n) \/
            exists c, c ∈ Children n /\
              ((M0 !! c = None /\ j = c) \/ (exists cn, M0 !! c = Some cn /\ in_subtree M0 cn j))).
  { intros j Hj. inversion Hj; subst; [by left| |]; right; eexists; split; eauto. }
  assert (Hdone : forall j, in_subtree M0 n j ->
            j ∈ {[ID (NBlock n)]} ∪ BadBlocks sf /\ delete (ID (NBlock n)) (BlockMap sf) !! j = None).
  { intros j Hj. destruct (Hsubtree j Hj) as [->|[c [Hc Hj']]].
    - split; [by apply elem_of_union_l, elem_of_singleton|apply lookup_delete_eq].
    - destruct (F8 c j Hc Hj') as [Hb Hm]. split; [by apply elem_of_union_r|].
      rewrite lookup_delete_None. by right. }
  simpl. split; [etrans; [apply delete_subseteq|exact F1]|].
  split; [etrans; [exact F2|apply union_subseteq_r]|]. do 4 (split; [assumption|]).
  split; [|split; [exact Hdone|split]].
  - intros k node Hk Hk' j Hj.
    destruct (decide (k = ID (NBlock n))) as [->|Hne].
    + rewrite HM0n in Hk. injection Hk as <-. by apply Hdone.
    + simpl in Hk'. rewrite lookup_delete_ne in Hk' by congruence.
      destruct (F7 k node Hk Hk' j Hj) as [Hb Hm]. split; [by apply elem_of_union_r|].
      rewrite lookup_delete_None. by right.
  - intros k Hk. simpl in Hk. apply elem_of_union in Hk as [Hk|Hk].
    + apply elem_of_singleton in Hk as ->. right. constructor.
    + destruct (F9 k Hk) as [?|[c [Hc [[? ->]|[cn [? ?]]]]]]; [by left| |];
        right; [eapply st_missing | eapply st_child]; eauto.
  - intros k Hk. simpl in Hk. apply lookup_delete_None in Hk as [<-|Hk]; [right; constructor|].
    destruct (F10 k Hk) as [?|[c [Hc [[? ->]|[cn [? ?]]]]]]; [by left| |];
      right; [eapply st_missing | eapply st_child]; eauto.
Qed.

End Invalidate.

Section InvalidateSpec.
Context {Transaction : Type} `{!Env Transaction}.

(** On a block map whose nodes are stored under their own block ids,
    [invalidateNode n] (for [n] in the map) adds exactly the ids of [n]'s
    subtree to [BadBlocks] and removes exactly them from [BlockMap]; it
    does not touch the tip, the current path or the ledger. *)
Theorem invalidateNode_subtree fuel (s s' : State Transaction) (n : BlockNode Transaction) :
  (forall k m, BlockMap s !! k = Some m -> ID (NBlock m) = k) ->
  BlockMap s !! ID (NBlock n) = Some n ->
  invalidateNode fuel s n = Some s' ->
  (forall k, k ∈ BadBlocks s' <-> k ∈ BadBlocks s \/ in_subtree (BlockMap s) n k) /\
  (forall k, in_subtree (BlockMap s) n k -> BlockMap s' !! k = None) /\
  (forall k, ~ in_subtree (BlockMap s) n k -> BlockMap s' !! k = BlockMap s !! k) /\
  CurrentBlock s' = CurrentBlock s /\ CurrentPath s' = CurrentPath s /\
  SLedger s' = SLedger s.
Proof.
  intros Hcons Hn H.
  destruct (invalidateNode_frame (BlockMap s) Hcons fuel s s' n ltac:(reflexivity)
              ltac:(intros k node Hk Hk'; congruence) Hn H)
    as (H1 & H2 & H3 & H4 & H5 & H6 & H7 & H8 & H9 & H10).
  split; [|split; [|split]].
  - intros k. split; [apply H9|]. intros [Hk|Hk]; [by apply H2|]. by apply H8.
  - intros k Hk. by apply H8.
  - intros k Hk. destruct (BlockMap s' !! k) as [x|] eqn:Hx.
    + symmetry. eapply lookup_weaken; eassumption.
    + destruct (H10 k Hx) as [?|?]; [congruence|contradiction].
  - auto.
Qed.

End InvalidateSpec.

(** ** [integrateBlock] and [forkBlockchain] *)

Section Integrate.
Context {Transaction : Type} `{!Env Transaction}.


Lemma applyTxns_err (s s1 : State Transaction) bid txns applied sub e ap sub' :
  applyTxns s bid txns applied sub = (Some e, s1, ap, sub') ->
  BlockMap s1 = BlockMap s /\ BadBlocks s1 = {[bid]} ∪ BadBlocks s /\
  CurrentBlock s1 = CurrentBlock s /\ CurrentPath s1 = CurrentPath s.
Proof.
  revert s applied sub. induction txns as [|t txns IH]; intros s applied sub H; simpl in H.
  - discriminate.
  - destruct (validTransaction s t).
    + injection H as _ <- _ _. simpl. auto.
    + destruct (IH _ _ _ H) as (H1 & H2 & H3 & H4). simpl in *. auto.
Qed.

Lemma update_current_node_frame (s s' : State Transaction) f :
  update_current_node s f = Some s' ->
  BadBlocks s' = BadBlocks s /\ CurrentBlock s' = CurrentBlock s /\
  CurrentPath s' = CurrentPath s /\ SLedger s' = SLedger s /\
  (forall k, k <> CurrentBlock s -> BlockMap s' !! k = BlockMap s !! k) /\
  exists n, currentBlockNode s = Some n /\ currentBlockNode s' = Some (f n).
Proof.
  unfold update_current_node. destruct (currentBlockNode s) as [n|] eqn:Hn; [|discriminate].
  simpl. intros H. injection H as <-. simpl.
  do 4 (split; [reflexivity|]). split.
  - intros k Hk. by rewrite lookup_insert_ne by congruence.
  - exists n. split; [reflexivity|]. unfold currentBlockNode. simpl. apply lookup_insert_eq.
Qed.




Lemma integrateBlock_error_frame (s s' : State Transaction) (b : Block Transaction) e :
  integrateBlock s b = Some (Some e, s') ->
  BlockMap s' = BlockMap s /\ BadBlocks s' = {[ID b]} ∪ BadBlocks s /\
  CurrentBlock s' = CurrentBlock s /\ CurrentPath s' = CurrentPath s.
Proof.
  unfold integrateBlock. intros H.
  destruct (applyTxns s (ID b) (Transactions b) [] 0) as [[[err s1] ap] sub] eqn:Ha.
  destruct err as [e'|].
  - injection H as _ <-. destruct (applyTxns_err _ _ _ _ _ _ _ _ _ Ha) as (A1 & A2 & A3 & A4).
    simpl. auto.
  - destruct (foldM maintainContract (s1, []) _) as [[s2 del]|]; [|discriminate].
    simpl in H. destruct (BlockMap _ !! ID b); discriminate.
Qed.

(** When the new node is a child of the current tip (and not already on
    the current path), [forkBlockchain] integrates that one block: on
    success it returns the state of [integrateBlock]; on failure it
    invalidates the new node's subtree and returns the error of
    [integrateBlock], with the tip and the path of the call. *)
Theorem forkBlockchain_extend fuel (s : State Transaction) (tip newNode : BlockNode Transaction) :
  (2 <= fuel)%nat ->
  BlockMap s !! ParentBlock (NBlock newNode) = Some tip ->
  CurrentBlock s = ID (NBlock tip) ->
  CurrentPath s !! Height tip = Some (ID (NBlock tip)) ->
  default 0 (CurrentPath s !! Height newNode) <> ID (NBlock newNode) ->
  BlockMap s !! ID (NBlock newNode) = Some newNode ->
  (forall s', integrateBlock s (NBlock newNode) = Some (None, s') ->
     forkBlockchain fuel s newNode = Some (None, s')) /\
  (forall e s', integrateBlock s (NBlock newNode) = Some (Some e, s') ->
     forkBlockchain fuel s newNode =
       (s'' ← invalidateNode fuel s' newNode; Some (Some e, s'')) /\
     CurrentBlock s' = CurrentBlock s /\ CurrentPath s' = CurrentPath s).
Proof.
  intros Hf Hp Hcb Hpath Hnew Hn.
  assert (Hfind : findForkPoint fuel s newNode [] = Some (tip, [ID (NBlock newNode)])).
  { destruct fuel as [|[|f]]; [lia|lia|]. simpl.
    destruct (Z.eqb_spec (default 0 (CurrentPath s !! Height newNode)) (ID (NBlock newNode)));
      [contradiction|].
    rewrite Hp. simpl. rewrite Hpath. simpl. by rewrite Z.eqb_refl. }
  assert (Hrew : rewindTo fuel s (ID (NBlock tip)) [] = Some (s, [])).
  { destruct fuel as [|f]; [lia|]. simpl. by rewrite Hcb, Z.eqb_refl. }
  unfold forkBlockchain. rewrite Hfind. simpl. rewrite Hrew. simpl. rewrite Hn. simpl.
  split.
  - intros s' Hi. rewrite Hi. reflexivity.
  - intros e s' Hi. rewrite Hi. simpl.
    destruct (integrateBlock_error_frame _ _ _ _ Hi) as (I1 & I2 & I3 & I4).
    rewrite I1, Hn. simpl. split; [|auto].
    destruct (invalidateNode fuel s' newNode); reflexivity.
Qed.

(** A contract whose challenge window closes at the tip's height [h]
    without a storage proof pays [payout = min(FundsRemaining,
    MissedProofPayout)] into the output [StorageProofOutputID fc id h
    false] (to [MissedProofAddress]), unless a termination output of the
    same id replaces it in the same iteration; its funds go down by
    [payout], so they stay non-negative; its failures go up by one, its
    window is reset, and the missed proof is appended to the undo log of
    the tip's node. *)
Theorem maintainContract_missed_proof (s s' : State Transaction) del del' p h oc :
  StateHeight s = Some h ->
  Heap (SLedger s) !! p = Some oc ->
  ChallengeFrequency (OCFileContract oc) <> 0 ->
  wrap64 (h - Start (OCFileContract oc)) mod ChallengeFrequency (OCFileContract oc) = 0 ->
  Start (OCFileContract oc) < h ->
  WindowSatisfied oc = false ->
  maintainContract (s, del) p = Some (s', del') ->
  let fc := OCFileContract oc in
  let payout := Z.min (FundsRemaining oc) (MissedProofPayout fc) in
  let spid := StorageProofOutputID fc (ContractID oc) h false in
  exists oc',
    Heap (SLedger s') !! p = Some oc' /\
    OCFileContract oc' = fc /\ ContractID oc' = ContractID oc /\
    FundsRemaining oc' = FundsRemaining oc - payout /\
    (0 <= FundsRemaining oc -> 0 <= MissedProofPayout fc -> 0 <= payout /\ 0 <= FundsRemaining oc') /\
    Failures oc' = wrap64 (Failures oc + 1) /\ WindowSatisfied oc' = false /\
    (spid <> ContractTerminationOutputID fc (ContractID oc) (Failures oc' =? Tolerance fc) ->
       UnspentOutputs (SLedger s') !! spid = Some (MkOutput payout (MissedProofAddress fc))) /\
    exists n n', currentBlockNode s = Some n /\ currentBlockNode s' = Some n' /\
      MissedStorageProofs n' = MissedStorageProofs n ++ [MkMissedStorageProof spid (ContractID oc)].
Proof.
  intros Hh Hoc Hcf Hw Hst Hsat H fc payout spid.
  unfold maintainContract in H. rewrite Hh in H. simpl in H. rewrite Hoc in H. simpl in H.
  fold fc in H, Hw, Hcf, Hst. destruct (Z.eqb_spec (ChallengeFrequency fc) 0); [contradiction|].
  rewrite Hw, Z.eqb_refl in H. destruct (Z.ltb_spec (Start fc) h); [|lia]. simpl in H.
  rewrite Hsat in H. simpl in H.
  replace (if FundsRemaining oc <? MissedProofPayout fc then FundsRemaining oc
           else MissedProofPayout fc) with payout in H
    by (unfold payout; destruct (Z.ltb_spec (FundsRemaining oc) (MissedProofPayout fc)); lia).
  fold spid in H.
  destruct (update_current_node _ _) as [s2|] eqn:Hu; simpl in H; [|discriminate].
  destruct (update_current_node_frame _ _ _ Hu) as (U1 & U2 & U3 & U4 & U5 & nd & Hn & Hn2).
  simpl in U1, U2, U3, U4, U5, Hn, Hn2.
  set (oc' := with_window (with_funds_failures oc (FundsRemaining oc - payout)
                (wrap64 (Failures oc + 1))) false) in H.
  assert (Hheap : forall s3 : State Transaction, SLedger s3 = set_Heap (SLedger s2)
                    (<[p := oc']> (Heap (SLedger s2))) ->
            Heap (SLedger s3) !! p = Some oc') by (intros s3 ->; apply lookup_insert_eq).
  exists oc'.
  assert (Hpay : 0 <= FundsRemaining oc -> 0 <= MissedProofPayout fc ->
                 0 <= payout /\ 0 <= FundsRemaining oc - payout) by (unfold payout; lia).
  destruct (_ || _).
  - destruct (update_current_node _ (push_termination p)) as [s5|] eqn:Hu';
      simpl in H; [|discriminate].
    injection H as <- _.
    destruct (update_current_node_frame _ _ _ Hu') as (V1 & V2 & V3 & V4 & V5 & n' & Hn' & Hn5).
    assert (Hn'e : n' = push_missed (MkMissedStorageProof spid (ContractID oc)) nd).
    { destruct (negb _); unfold currentBlockNode in Hn'; simpl in Hn';
        unfold currentBlockNode in Hn2; congruence. }
    subst n'.
    split; [rewrite V4; destruct (negb _); simpl; apply lookup_insert_eq|].
    do 3 (split; [reflexivity|]). split; [exact Hpay|]. do 2 (split; [reflexivity|]).
    split.
    + intros Hne. rewrite V4.
      destruct (negb _); simpl; rewrite U4; simpl;
        [rewrite lookup_insert_ne by (simpl in Hne; congruence)|]; apply lookup_insert_eq.
    + exists nd, (push_termination p (push_missed (MkMissedStorageProof spid (ContractID oc)) nd)).
      split; [exact Hn|]. split; [exact Hn5|]. reflexivity.
  - injection H as <- _. simpl.
    split; [apply lookup_insert_eq|].
    do 3 (split; [reflexivity|]). split; [exact Hpay|]. do 2 (split; [reflexivity|]).
    split.
    + intros _. rewrite U4. apply lookup_insert_eq.
    + exists nd, (push_missed (MkMissedStorageProof spid (ContractID oc)) nd).
      split; [exact Hn|]. split; [exact Hn2|]. reflexivity.
Qed.

End Integrate.

(** ** Contract renewals *)

Module ContractorFacts.
Import Contractor.

Lemma resolveID_some fuel (renewedIDs : gmap Z Z) id r :
  resolveID fuel renewedIDs id = Some r -> renewedIDs !! r = None.
Proof.
  revert id. induction fuel as [|f IH]; intros id H; [discriminate|].
  simpl in H. destruct (renewedIDs !! id) as [newID|] eqn:Hid; [exact (IH _ H)|].
  injection H as <-. exact Hid.
Qed.

(** [resolveID] returns an id that has not been renewed, and resolving
    that id again gives it back. *)
Theorem resolveID_latest fuel (renewedIDs : gmap Z Z) id r :
  resolveID fuel renewedIDs id = Some r ->
  renewedIDs !! r = None /\ forall fuel', resolveID (S fuel') renewedIDs r = Some r.
Proof.
  intros H. pose proof (resolveID_some _ _ _ _ H) as Hr.
  split; [exact Hr|]. intros fuel'. simpl. by rewrite Hr.
Qed.

(** [resolveID] never returns when the renewal chain of [id] enters a
    cycle: a set of ids each of which is renewed into the set. *)
Theorem resolveID_cycle (P : Z -> Prop) (renewedIDs : gmap Z Z) id :
  (forall x, P x -> exists y, renewedIDs !! x = Some y /\ P y) ->
  P id -> forall fuel, resolveID fuel renewedIDs id = None.
Proof.
  intros Hcyc Hid fuel. revert id Hid. induction fuel as [|f IH]; intros id Hid; [reflexivity|].
  simpl. destruct (Hcyc id Hid) as [y [Hy HPy]]. rewrite Hy. exact (IH y HPy).
Qed.

(** [ContractUtility] of an id gives the utility recorded for its latest
    renewal, the same as [ContractUtility] of that renewal. *)
Theorem ContractUtility_resolved {U : Type} fuel fuel' (renewedIDs : gmap Z Z)
    (contractUtilities : gmap Z U) id r :
  resolveID fuel renewedIDs id = Some r ->
  ContractUtility fuel renewedIDs contractUtilities id = Some (contractUtilities !! r) /\
  ContractUtility (S fuel') renewedIDs contractUtilities r = Some (contractUtilities !! r).
Proof.
  intros H. unfold ContractUtility. rewrite H. split; [reflexivity|].
  simpl. by rewrite (resolveID_some _ _ _ _ H).
Qed.

End ContractorFacts.

(** ** Negotiation round trips *)

Module NegotiationRoundTrip.
Import Negotiation NegotiationWrite.

Section RoundTrip.
Variable encodeString : string -> list Z.
Variable decodeString : list Z -> Err + string.
(** The decoder reads one encoded string from the front of a stream. *)
Hypothesis decode_encode : forall s rest, decodeString (encodeString s ++ rest) = inr s.

Lemma read_after_write s rest :
  (length (encodeString s) <= 256)%nat ->
  ReadObject decodeString (encodeString s ++ rest) MaxErrorSize = inr s.
Proof.
  intros Hl. unfold ReadObject, MaxErrorSize. change (Z.to_nat 256) with 256%nat.
  replace 256%nat with (length (encodeString s) + (256 - length (encodeString s)))%nat by lia.
  rewrite firstn_app_2. apply decode_encode.
Qed.

(** What [WriteNegotiationAcceptance] sends is read back by
    [ReadNegotiationAcceptance] as a nil error, whatever follows on the
    connection, when the encoded ["accept"] fits in [MaxErrorSize]. *)
Theorem negotiation_accept_roundtrip rest :
  (length (encodeString AcceptResponse) <= 256)%nat ->
  ReadNegotiationAcceptance decodeString (WriteNegotiationAcceptance encodeString [] ++ rest) = None.
Proof.
  intros Hl. unfold ReadNegotiationAcceptance, WriteNegotiationAcceptance, WriteObject.
  simpl. rewrite read_after_write by exact Hl. reflexivity.
Qed.

(** What [WriteNegotiationRejection err] sends is read back by
    [ReadNegotiationAcceptance] as an error with [err]'s message, when the
    encoded message fits in [MaxErrorSize], except when that message is
    ["accept"]: such a rejection is read as an acceptance. *)
Theorem negotiation_reject_roundtrip err rest :
  (length (encodeString (Error err)) <= 256)%nat ->
  ReadNegotiationAcceptance decodeString (WriteNegotiationRejection encodeString [] err ++ rest) =
    if String.eqb (Error err) AcceptResponse then None else Some (ErrMsg (Error err)).
Proof.
  intros Hl. unfold ReadNegotiationAcceptance, WriteNegotiationRejection, WriteObject.
  simpl. rewrite read_after_write by exact Hl. reflexivity.
Qed.

End RoundTrip.
End NegotiationRoundTrip.

(** ** Host announcements *)

Module AnnouncementFacts.
Import Announcement.

Section Facts.
Variable SignatureEd25519 : list Z.
Variable Marshal : HostAnnouncement -> list Z.
Variable decodeAnnouncement : list Z -> Err + (HostAnnouncement * list Z).
Variable decodeSignature : list Z -> Err + (list Z * list Z).
Variable HashBytes : list Z -> Z.
Variable SignHash : Z -> list Z -> Err + list Z.
Variable VerifyHash : Z -> list Z -> list Z -> option Err.

(** An announcement made by [CreateAnnouncement addr pk sk] (followed by
    any bytes) decodes to [(addr, pk)] with a nil error, when [pk] is an
    Ed25519 key, the decoder reads back what [Marshal] and [SignHash]
    produce, and the signatures of [sk] verify under the 32 bytes of
    [pk]'s key. *)
Theorem DecodeAnnouncement_CreateAnnouncement addr pk sk bytes rest :
  Algorithm pk = SignatureEd25519 ->
  (forall ha rest, decodeAnnouncement (Marshal ha ++ rest) = inr (ha, rest)) ->
  (forall h sig rest, SignHash h sk = inr sig -> decodeSignature (sig ++ rest) = inr (sig, rest)) ->
  (forall h sig, SignHash h sk = inr sig ->
     VerifyHash h (go_copy (repeat 0 32) (Key pk)) sig = None) ->
  CreateAnnouncement Marshal HashBytes SignHash addr pk sk = inr bytes ->
  DecodeAnnouncement SignatureEd25519 Marshal decodeAnnouncement decodeSignature HashBytes
    VerifyHash (bytes ++ rest) = (addr, pk, None).
Proof.
  intros Halg Hdec Hsig Hver Hc. unfold CreateAnnouncement in Hc.
  destruct (SignHash _ sk) as [e|sig] eqn:Hs; [discriminate|]. injection Hc as <-.
  unfold DecodeAnnouncement. rewrite <- app_assoc, Hdec.
  cbn [Specifier PublicKey Algorithm Key NetAddress].
  rewrite (bool_decide_eq_true_2 (PrefixHostAnnouncement = PrefixHostAnnouncement))
    by reflexivity.
  rewrite (bool_decide_eq_true_2 (Algorithm pk = SignatureEd25519)) by exact Halg.
  cbn [negb].
  rewrite (Hsig _ _ _ Hs). unfold HashObject. rewrite (Hver _ _ Hs). reflexivity.
Qed.

(** [DecodeAnnouncement] returns an address and a key only with a nil
    error, and then they come from a decoded announcement with the host
    announcement prefix, an Ed25519 key, and a signature that verifies
    under that key against the hash of the announcement's encoding; with
    an error it returns the empty address and the zero key. *)
Theorem DecodeAnnouncement_sound full :
  match DecodeAnnouncement SignatureEd25519 Marshal decodeAnnouncement decodeSignature
          HashBytes VerifyHash full with
  | (na, spk, None) =>
      exists ha rest sig rest',
        decodeAnnouncement full = inr (ha, rest) /\
        Specifier ha = PrefixHostAnnouncement /\
        Algorithm (PublicKey ha) = SignatureEd25519 /\
        decodeSignature rest = inr (sig, rest') /\
        VerifyHash (HashBytes (Marshal ha)) (go_copy (repeat 0 32) (Key (PublicKey ha))) sig = None /\
        na = NetAddress ha /\ spk = PublicKey ha
  | (na, spk, Some _) => na = ""%string /\ spk = zeroSiaPublicKey
  end.
Proof.
  unfold DecodeAnnouncement.
  destruct (decodeAnnouncement full) as [e|[ha rest]] eqn:Hd; [split; reflexivity|].
  destruct (bool_decide_reflect (Specifier ha = PrefixHostAnnouncement)) as [Hp|Hp];
    simpl; [|split; reflexivity].
  destruct (bool_decide_reflect (Algorithm (PublicKey ha) = SignatureEd25519)) as [Ha|Ha];
    simpl; [|split; reflexivity].
  destruct (decodeSignature rest) as [e|[sig rest']] eqn:Hs; [split; reflexivity|].
  unfold HashObject.
  destruct (VerifyHash _ _ sig) as [e|] eqn:Hv; [split; reflexivity|].
  exists ha, rest, sig, rest'. auto 7.
Qed.

End Facts.
End AnnouncementFacts.

(** ** Retargeting bounds, fork choice, side branches *)

Section Bounds.
Context {Transaction : Type} `{!Env Transaction}.

Lemma targetAdjustment_clamped (s : State Transaction) (newNode : BlockNode Transaction) adj :
  Qle MaxAdjustmentDown MaxAdjustmentUp ->
  targetAdjustment s newNode = Some adj ->
  Qle MaxAdjustmentDown adj /\ Qle adj MaxAdjustmentUp.
Proof.
  intros Hdu Ha. unfold targetAdjustment in Ha.
  destruct (_ : option (Z * Z)) as [[tp ep]|]; [|discriminate]. simpl in Ha.
  destruct (newRat tp ep) as [q|]; [|discriminate]. simpl in Ha. injection Ha as <-.
  assert (Hup : Qcompare q MaxAdjustmentUp <> Gt -> Qle q MaxAdjustmentUp) by apply Qle_alt.
  assert (Hdown : Qcompare q MaxAdjustmentDown <> Lt -> Qle MaxAdjustmentDown q) by apply Qge_alt.
  destruct (Qcompare q MaxAdjustmentUp) eqn:Hu;
    [destruct (Qcompare q MaxAdjustmentDown) eqn:Hd..|];
    split; try exact Hdu; try apply Qle_refl;
    try (apply Hup; congruence); try (apply Hdown; congruence).
Qed.

(** The new target computed by [childTarget] before its copy into 32
    bytes stays between the parent's target scaled by [MaxAdjustmentDown]
    and by [MaxAdjustmentUp], both truncated: one retarget changes the
    target by a bounded factor, however far the timestamps are. *)
Theorem adjustedTarget_bounds (s : State Transaction) (parentNode newNode : BlockNode Transaction) v :
  Qle MaxAdjustmentDown MaxAdjustmentUp -> 0 <= Target parentNode ->
  adjustedTarget s parentNode newNode = Some v ->
  Qfloor (Qmult MaxAdjustmentDown (inject_Z (Target parentNode))) <= v <=
  Qfloor (Qmult MaxAdjustmentUp (inject_Z (Target parentNode))).
Proof.
  intros Hdu HT Hv. unfold adjustedTarget in Hv.
  destruct (targetAdjustment s newNode) as [adj|] eqn:Ha; [|discriminate].
  simpl in Hv. injection Hv as <-.
  destruct (targetAdjustment_clamped _ _ _ Hdu Ha) as [Hd Hu].
  assert (HT' : Qle 0 (inject_Z (Target parentNode))) by (unfold Qle; simpl; lia).
  change ((Qnum adj * Target parentNode) / Z.pos (Qden adj * 1))
    with (Qfloor (adj * inject_Z (Target parentNode))).
  split; apply Qfloor_resp_le, Qmult_le_compat_r; assumption.
Qed.

(** [heavierFork] never prefers a node whose depth is not below the
    tip's (a node with no more accumulated work than the tip). *)
Theorem heavierFork_not_heavier (s : State Transaction) (n tip : BlockNode Transaction) :
  currentBlockNode s = Some tip ->
  0 < Depth tip <= Depth n -> 0 < Target tip ->
  heavierFork s n = Some false.
Proof.
  intros Hcur [Hdt Hdn] Ht.
  assert (Hinv : forall x, 0 < x -> ratInv x = Some (1 # Z.to_pos x)).
  { intros x Hx. unfold ratInv, newRat.
    destruct (Z.eqb_spec x 0); [lia|]. destruct (Z.ltb_spec 0 x); [reflexivity|lia]. }
  unfold heavierFork, currentBlockWeight, StateDepth. rewrite Hcur.
  cbn [mbind option_bind fmap option_fmap option_map].
  rewrite (Hinv _ Ht). cbn [mbind option_bind].
  rewrite (Hinv _ Hdt). cbn [mbind option_bind].
  rewrite (Hinv _ (Z.lt_le_trans _ _ _ Hdt Hdn)). cbn [mbind option_bind].
  assert (Hlt : Qlt (1 # Z.to_pos (Depth n))
                    ((1 # Z.to_pos (Depth tip)) + (1 # Z.to_pos (Target tip)) * SurpassThreshold)).
  { apply Qle_lt_trans with (1 # Z.to_pos (Depth tip)).
    - unfold Qle. simpl. rewrite !Z2Pos.id by lia. lia.
    - rewrite <- (Qplus_0_r (1 # Z.to_pos (Depth tip))) at 1.
      apply Qplus_lt_r. apply Qmult_lt_0_compat; reflexivity. }
  rewrite (proj1 (Qlt_alt _ _) Hlt). reflexivity.
Qed.

Lemma addBlockToTree_frame (s s' : State Transaction) (parent n : BlockNode Transaction) b :
  addBlockToTree s parent b = Some (s', n) ->
  is_Some (BlockMap s' !! ID b) /\ BadBlocks s' = BadBlocks s /\
  CurrentBlock s' = CurrentBlock s /\ CurrentPath s' = CurrentPath s /\ SLedger s' = SLedger s.
Proof.
  unfold addBlockToTree. intros H.
  destruct (childTarget s parent _) as [target|]; [|discriminate]. simpl in H.
  destruct (childDepth parent) as [depth|]; [|discriminate]. simpl in H.
  injection H as <- _. simpl. split; [|auto].
  rewrite lookup_alter_is_Some. eexists. apply lookup_insert_eq.
Qed.

(** A block with a valid header that does not make a heavier fork is
    added to the tree and broadcast, and [AcceptBlock] returns nil; the
    tip, the current path, the ledger and [BadBlocks] stay as they were. *)
Theorem AcceptBlock_side_branch fuel (s s1 s2 : State Transaction) (b : Block Transaction)
    now parent n :
  checkMaps s b = inr parent ->
  validateHeader s parent b now = Some (None, s1) ->
  addBlockToTree s1 parent b = Some (s2, n) ->
  heavierFork s2 n = Some false ->
  AcceptBlock fuel s b now = Some (None, s2, [b]) /\
  BlockMap s !! ID b = None /\ is_Some (BlockMap s2 !! ID b) /\
  CurrentBlock s2 = CurrentBlock s /\ CurrentPath s2 = CurrentPath s /\
  SLedger s2 = SLedger s /\ BadBlocks s2 = BadBlocks s.
Proof.
  intros Hc Hv Ha Hh.
  assert (Hs1 : s1 = s).
  { destruct (validateHeader_cases _ _ _ _ _ _ Hv) as [->|[_ [He|He]]]; congruence. }
  subst s1.
  destruct (addBlockToTree_frame _ _ _ _ _ Ha) as (A1 & A2 & A3 & A4 & A5).
  split; [unfold AcceptBlock; rewrite Hc, Hv; simpl; rewrite Ha; simpl; by rewrite Hh|].
  split; [|auto].
  unfold checkMaps in Hc. destruct (decide _); [discriminate|].
  destruct (BlockMap s !! ID b); [discriminate|reflexivity].
Qed.

End Bounds.

Module Witnesses.
Import Concrete.

(** Closes a concrete side condition by evaluation. *)
Ltac close_concrete :=
  first [ reflexivity
        | vm_compute; first [ reflexivity | discriminate
                            | split; first [reflexivity | discriminate] ] ].

Lemma concrete_reverse_apply (s : State Z) (t : Z) :
  validTransaction s t = None ->
  reverseTransaction (applyTransaction (SLedger s) t) t = SLedger s.
Proof.
  intros _. destruct s as [? ? ? ? ? [u o h]]. simpl. unfold reverseTx, applyTx, set_UnspentOutputs.
  simpl. rewrite alter_alter_eq, alter_id; [reflexivity|].
  intros [v sh] _. simpl. f_equal. lia.
Qed.

Lemma integrateBlock_invalid_txn_witness :
  Transactions B_bad = [5] ++ 0 :: [3] /\
  validPrefix s_txn [5] = Some (set_Ledger s_txn (applyTx (SLedger s_txn) 5)) /\
  validTransaction (set_Ledger s_txn (applyTx (SLedger s_txn) 5)) 0 =
    Some (ErrMsg "invalid transaction") /\
  integrateBlock s_txn B_bad =
    Some (Some (ErrMsg "invalid transaction"), set_BadBlocks s_txn ({[ID B_bad]} ∪ BadBlocks s_txn)).
Proof.
  split; [reflexivity|]. split; [vm_compute; reflexivity|]. split; [reflexivity|].
  apply (integrateBlock_invalid_txn concrete_reverse_apply s_txn
           (set_Ledger s_txn (applyTx (SLedger s_txn) 5)) B_bad [5] 0 [3]);
    vm_compute; reflexivity.
Defined.

Lemma validateHeader_too_early_witness :
  length (RecentTimestamps (mkNode G 0)) = 11%nat /\
  wrap64s (Timestamp B_median - 0) <= FutureThreshold /\
  (Timestamp B_median < median (mkNode G 0) ->
     validateHeader s_chain (mkNode G 0) B_median 0 =
       Some (Some err_past, set_BadBlocks s_chain ({[ID B_median]} ∪ BadBlocks s_chain))) /\
  (median (mkNode G 0) <= Timestamp B_median ->
     exists r, validateHeader s_chain (mkNode G 0) B_median 0 = Some r /\ fst r <> Some err_past).
Proof.
  split; [reflexivity|]. split; [vm_compute; discriminate|].
  apply validateHeader_too_early; close_concrete.
Defined.

Lemma validateHeader_target_witness :
  median (mkNode G 0) <= Timestamp B_at_target /\
  (bytes_compare (be 32 (ID B_at_target)) (be 32 (Target (mkNode G 0))) = Gt <->
     Target (mkNode G 0) < ID B_at_target) /\
  validateHeader s_chain (mkNode G 0) B_at_target 0 =
    if Target (mkNode G 0) <? ID B_at_target then Some (Some err_target, s_chain)
    else Some (None, s_chain).
Proof.
  split; [vm_compute; discriminate|].
  apply validateHeader_target;
    close_concrete.
Defined.

Lemma heavierFork_spec_witness :
  currentBlockNode s_chain = Some (mkNode G 0) /\
  exists r, heavierFork s_chain (mkNode B 1) = Some r /\
    (r = true <->
     Qlt (Qplus (Qinv (inject_Z (Depth (mkNode G 0))))
                (Qmult (5 # 100) (Qinv (inject_Z (Target (mkNode G 0))))))
         (Qinv (inject_Z (Depth (mkNode B 1))))).
Proof.
  split; [reflexivity|].
  apply heavierFork_spec; close_concrete.
Defined.

Lemma childTarget_spec_witness :
  adjustedTarget s_chain (mkNode G 0) (mkNode B 1) = Some (2 ^ 255 * 999 / 1000) /\
  (2 ^ 256 <= 2 ^ 255 * 999 / 1000 ->
     childTargetBytes s_chain (mkNode G 0) (mkNode B 1) = None /\
     childTarget s_chain (mkNode G 0) (mkNode B 1) = None) /\
  (2 ^ 255 * 999 / 1000 < 2 ^ 256 ->
     childTargetBytes s_chain (mkNode G 0) (mkNode B 1) =
       Some (repeat 0 (32 - byte_len (2 ^ 255 * 999 / 1000)) ++ int_bytes (2 ^ 255 * 999 / 1000)) /\
     repeat 0 (32 - byte_len (2 ^ 255 * 999 / 1000)) ++ int_bytes (2 ^ 255 * 999 / 1000) =
       be 32 (2 ^ 255 * 999 / 1000) /\
     childTarget s_chain (mkNode G 0) (mkNode B 1) = Some (2 ^ 255 * 999 / 1000)).
Proof.
  split; [vm_compute; reflexivity|].
  apply childTarget_spec; close_concrete.
Defined.

End Witnesses.

Module ExtraWitnesses.
Import Concrete ConcreteMore ConcreteCodec Announcement Contractor ContractorFacts.
Import Negotiation NegotiationWrite NegotiationRoundTrip AnnouncementFacts.

Lemma take_chunk_chunk x rest : take_chunk (chunk x ++ rest) = Some (x, rest).
Proof.
  unfold take_chunk, chunk. simpl.
  rewrite Nat2Z.id, length_app.
  replace ((0 <=? Z.of_nat (length x)) && (length x <=? length x + length rest)%nat)
    with true by (symmetry; apply andb_true_intro; split; [apply Z.leb_le; lia | apply Nat.leb_le; lia]).
  rewrite firstn_app, skipn_app, firstn_all, skipn_all, Nat.sub_diag. simpl.
  rewrite app_nil_r. reflexivity.
Qed.

Lemma string_of_bytes_of_string s : string_of_bytes (bytes_of_string s) = s.
Proof.
  unfold string_of_bytes, bytes_of_string. rewrite map_map.
  erewrite map_ext; [rewrite map_id; apply string_of_list_ascii_of_string|].
  intros a. simpl. rewrite N2Z.id. apply Ascii.ascii_N_embedding.
Qed.

Lemma concrete_decode_encode s rest : decodeString (encodeString s ++ rest) = inr s.
Proof.
  unfold decodeString, encodeString. rewrite take_chunk_chunk. f_equal.
  apply string_of_bytes_of_string.
Qed.

Lemma concrete_decodeAnn ha rest : decodeAnn (marshalAnn ha ++ rest) = inr (ha, rest).
Proof.
  unfold decodeAnn, marshalAnn. rewrite <- !app_assoc, !take_chunk_chunk.
  rewrite string_of_bytes_of_string. destruct ha as [sp a [alg k]]. reflexivity.
Qed.


Lemma decodeSig_64 l rest : length l = 64%nat -> decodeSig (l ++ rest) = inr (l, rest).
Proof.
  intros Hl. unfold decodeSig. rewrite length_app, Hl.
  replace (64 <=? 64 + length rest)%nat with true by (symmetry; apply Nat.leb_le; lia).
  rewrite firstn_app, skipn_app, <- Hl, Nat.sub_diag, firstn_all, skipn_all. simpl.
  rewrite app_nil_r. reflexivity.
Qed.

(** Closes a concrete side condition by evaluation. *)
Ltac close_concrete :=
  first [ reflexivity
        | vm_compute; first [ reflexivity | discriminate | intros ?; discriminate ] ].

Lemma AcceptBlock_header_reject_witness :
  let s1 := set_BadBlocks s_chain ({[ID b_merkle]} ∪ BadBlocks s_chain) in
  checkMaps s_chain b_merkle = inr (mkNode G 0) /\
  validateHeader s_chain (mkNode G 0) b_merkle 100 = Some (Some err_merkle, s1) /\
  AcceptBlock 3 s_chain b_merkle 100 = Some (Some err_merkle, s1, []) /\
  BlockMap s1 = BlockMap s_chain /\ CurrentBlock s1 = CurrentBlock s_chain.
Proof.
  intros s1.
  assert (Hc : checkMaps s_chain b_merkle = inr (mkNode G 0)) by close_concrete.
  assert (Hv : validateHeader s_chain (mkNode G 0) b_merkle 100 = Some (Some err_merkle, s1))
    by close_concrete.
  destruct (AcceptBlock_header_reject 3 s_chain s1 b_merkle 100 (mkNode G 0) err_merkle Hc Hv)
    as (H1 & H2 & H3 & _).
  auto.
Defined.

Lemma AcceptBlock_broadcast_witness :
  exists s', AcceptBlock 3 s_chain b_merkle 100 = Some (Some err_merkle, s', []) /\
    ((Some err_merkle = None /\ @nil (Block Z) = [b_merkle]) \/
     (Some err_merkle <> None /\ @nil (Block Z) = [])).
Proof.
  destruct (AcceptBlock 3 s_chain b_merkle 100) as [[[e s'] bc]|] eqn:H;
    [|vm_compute in H; discriminate].
  assert (He : e = Some err_merkle /\ bc = []) by (vm_compute in H; injection H; auto).
  destruct He as [-> ->]. exists s'. split; [reflexivity|].
  exact (AcceptBlock_broadcast 3 s_chain s' b_merkle 100 _ _ H).
Defined.

Lemma addBlockToTree_spec_witness :
  length (RecentTimestamps (mkNode G 0)) = 11%nat /\ ID b5 <> ID (NBlock (mkNode G 0)) /\
  exists s' n, addBlockToTree s_chain (mkNode G 0) b5 = Some (s', n) /\
    NBlock n = b5 /\ Height n = 1 /\ RecentTimestamps n = repeat 0 10 ++ [100] /\
    BlockMap s' !! 5 = Some n /\ BlockMap s' !! 1 = Some (push_child 5 (mkNode G 0)) /\
    CurrentBlock s' = 1.
Proof.
  assert (Hl : length (RecentTimestamps (mkNode G 0)) = 11%nat) by reflexivity.
  assert (Hne : ID b5 <> ID (NBlock (mkNode G 0))) by close_concrete.
  split; [exact Hl|]. split; [exact Hne|].
  destruct (addBlockToTree s_chain (mkNode G 0) b5) as [[s' n]|] eqn:H;
    [|vm_compute in H; discriminate].
  exists s', n. split; [reflexivity|].
  destruct (addBlockToTree_spec s_chain s' (mkNode G 0) n b5 Hl Hne H)
    as (A1 & A2 & A3 & _ & _ & _ & _ & _ & _ & A10 & A11 & _ & _ & A14 & _).
  split; [exact A1|]. split; [rewrite A2; reflexivity|]. split; [rewrite A3; reflexivity|].
  split; [exact A10|]. split; [exact A11|]. rewrite A14; reflexivity.
Defined.

Lemma childDepth_spec_witness :
  (0 < Depth (mkNode G 0) < 2 ^ 256) /\ 0 < Target (mkNode G 0) /\
  childDepth (mkNode G 0) = Some (2 ^ 200 * 2 ^ 255 / (2 ^ 200 + 2 ^ 255)) /\
  2 ^ 200 * 2 ^ 255 / (2 ^ 200 + 2 ^ 255) < 2 ^ 200 /\
  2 ^ 200 * 2 ^ 255 / (2 ^ 200 + 2 ^ 255) < 2 ^ 255.
Proof.
  assert (H1 : 0 < Depth (mkNode G 0) < 2 ^ 256) by (split; reflexivity).
  assert (H2 : 0 < Target (mkNode G 0)) by reflexivity.
  destruct (childDepth_spec (mkNode G 0) H1 H2) as (A & B1 & B2).
  split; [exact H1|]. split; [exact H2|]. split; [exact A|]. split; [exact B1|exact B2].
Defined.

Lemma childDepth_zero_witness :
  (Depth node_zero_depth = 0 \/ Target node_zero_depth = 0) /\ childDepth node_zero_depth = None.
Proof.
  assert (H : Depth node_zero_depth = 0 \/ Target node_zero_depth = 0) by (left; reflexivity).
  split; [exact H|]. exact (childDepth_zero node_zero_depth H).
Defined.

Lemma s_fork_consistent k m : BlockMap s_fork !! k = Some m -> ID (NBlock m) = k.
Proof.
  unfold s_fork. cbn [BlockMap]. intros Hk.
  rewrite !lookup_insert_Some, lookup_singleton_Some in Hk.
  destruct Hk as [[<- <-]|[_ [[<- <-]|[_ [<- <-]]]]]; reflexivity.
Qed.

Lemma invalidateNode_subtree_witness :
  BlockMap s_fork !! ID (NBlock (mkNode Y 1)) = Some (mkNode Y 1) /\
  exists s', invalidateNode 5 s_fork (mkNode Y 1) = Some s' /\
    3 ∈ BadBlocks s' /\ BlockMap s' !! 3 = None /\ BlockMap s' !! 2 = Some (mkNode X 1) /\
    CurrentBlock s' = 2.
Proof.
  assert (Hn : BlockMap s_fork !! ID (NBlock (mkNode Y 1)) = Some (mkNode Y 1)) by close_concrete.
  split; [exact Hn|].
  destruct (invalidateNode 5 s_fork (mkNode Y 1)) as [s'|] eqn:H; [|vm_compute in H; discriminate].
  exists s'. split; [reflexivity|].
  destruct (invalidateNode_subtree 5 s_fork s' (mkNode Y 1) s_fork_consistent Hn H)
    as (A1 & A2 & A3 & A4 & _).
  assert (Hself : in_subtree (BlockMap s_fork) (mkNode Y 1) 3) by exact (st_self (BlockMap s_fork) (mkNode Y 1)).
  split; [apply A1; right; exact Hself|]. split; [exact (A2 3 Hself)|].
  split; [|rewrite A4; reflexivity].
  rewrite A3; [reflexivity|].
  intros Hs. inversion Hs;
    match goal with Hc : _ ∈ Children _ |- _ => exact (not_elem_of_nil _ Hc) end.
Defined.


Lemma forkBlockchain_extend_witness :
  exists s', integrateBlock s_chain B = Some (None, s') /\
    forkBlockchain 2 s_chain (mkNode B 1) = Some (None, s').
Proof.
  destruct (integrateBlock s_chain B) as [[[e|] s']|] eqn:H;
    [vm_compute in H; discriminate| |vm_compute in H; discriminate].
  exists s'. split; [reflexivity|].
  apply (forkBlockchain_extend 2 s_chain (mkNode G 0) (mkNode B 1)); try close_concrete.
  exact H.
Defined.

Lemma maintainContract_missed_proof_witness :
  StateHeight s_missed = Some 15 /\
  Heap (SLedger s_missed) !! 50 = Some oc_window /\
  exists s' del', maintainContract (s_missed, []) 50 = Some (s', del') /\
    exists oc', Heap (SLedger s') !! 50 = Some oc' /\
      FundsRemaining oc' = 50 /\ Failures oc' = 1 /\
      UnspentOutputs (SLedger s') !! 11015 = Some (MkOutput 50 70).
Proof.
  assert (Hh : StateHeight s_missed = Some 15) by close_concrete.
  assert (Hoc : Heap (SLedger s_missed) !! 50 = Some oc_window) by close_concrete.
  split; [exact Hh|]. split; [exact Hoc|].
  destruct (maintainContract (s_missed, []) 50) as [[s' del']|] eqn:H;
    [|vm_compute in H; discriminate].
  exists s', del'. split; [reflexivity|].
  destruct (maintainContract_missed_proof s_missed s' [] del' 50 15 oc_window Hh Hoc
              ltac:(close_concrete) ltac:(close_concrete) ltac:(close_concrete)
              ltac:(close_concrete) H)
    as (oc' & A1 & A2 & A3 & A4 & _ & A6 & _ & A8 & _).
  exists oc'. split; [exact A1|]. split; [rewrite A4; reflexivity|].
  split; [rewrite A6; reflexivity|].
  apply A8. rewrite A6. close_concrete.
Defined.

Lemma resolveID_latest_witness :
  resolveID 5 renewals 1 = Some 3 /\ renewals !! 3 = None /\ resolveID 1 renewals 3 = Some 3.
Proof.
  assert (H : resolveID 5 renewals 1 = Some 3) by close_concrete.
  destruct (resolveID_latest 5 renewals 1 3 H) as [A1 A2].
  split; [exact H|]. split; [exact A1|exact (A2 O)].
Defined.

Lemma resolveID_cycle_witness :
  let P x := x = 5 \/ x = 6 in
  (forall x, P x -> exists y, renewal_cycle !! x = Some y /\ P y) /\ P 5 /\
  resolveID 1000 renewal_cycle 5 = None.
Proof.
  intros P.
  assert (Hc : forall x, P x -> exists y, renewal_cycle !! x = Some y /\ P y).
  { intros x [-> | ->]; [exists 6 | exists 5]; split; [reflexivity|right; reflexivity|reflexivity|left; reflexivity]. }
  assert (H5 : P 5) by (left; reflexivity).
  split; [exact Hc|]. split; [exact H5|]. exact (resolveID_cycle P renewal_cycle 5 Hc H5 1000).
Defined.

Lemma ContractUtility_resolved_witness :
  resolveID 5 renewals 1 = Some 3 /\
  ContractUtility 5 renewals utilities 1 = Some (Some 42) /\
  ContractUtility 1 renewals utilities 3 = Some (Some 42).
Proof.
  assert (H : resolveID 5 renewals 1 = Some 3) by close_concrete.
  destruct (ContractUtility_resolved 5 O renewals utilities 1 3 H) as [A1 A2].
  split; [exact H|]. split; [exact A1|exact A2].
Defined.

Lemma negotiation_accept_roundtrip_witness :
  (length (encodeString AcceptResponse) <= 256)%nat /\
  ReadNegotiationAcceptance decodeString (WriteNegotiationAcceptance encodeString [] ++ [7; 7]) = None.
Proof.
  assert (Hl : (length (encodeString AcceptResponse) <= 256)%nat) by (vm_compute; lia).
  split; [exact Hl|].
  exact (negotiation_accept_roundtrip encodeString decodeString concrete_decode_encode [7; 7] Hl).
Defined.

Lemma negotiation_reject_roundtrip_witness :
  (length (encodeString (Error (ErrMsg "host is busy"))) <= 256)%nat /\
  ReadNegotiationAcceptance decodeString
    (WriteNegotiationRejection encodeString [] (ErrMsg "host is busy") ++ [7; 7]) =
    Some (ErrMsg "host is busy").
Proof.
  assert (Hl : (length (encodeString (Error (ErrMsg "host is busy"))) <= 256)%nat)
    by (vm_compute; lia).
  split; [exact Hl|].
  rewrite (negotiation_reject_roundtrip encodeString decodeString concrete_decode_encode
             (ErrMsg "host is busy") [7; 7] Hl).
  reflexivity.
Defined.

Lemma DecodeAnnouncement_CreateAnnouncement_witness :
  exists bytes,
    CreateAnnouncement marshalAnn hashBytes signHash "host:1" hostKey hostSecret = inr bytes /\
    DecodeAnnouncement ed25519 marshalAnn decodeAnn decodeSig hashBytes verifyHash (bytes ++ [9]) =
      ("host:1"%string, hostKey, None).
Proof.
  destruct (CreateAnnouncement marshalAnn hashBytes signHash "host:1" hostKey hostSecret)
    as [e|bytes] eqn:H; [vm_compute in H; discriminate|].
  exists bytes. split; [reflexivity|].
  apply (DecodeAnnouncement_CreateAnnouncement ed25519 marshalAnn decodeAnn decodeSig hashBytes
           signHash verifyHash "host:1" hostKey hostSecret bytes [9]).
  - reflexivity.
  - exact concrete_decodeAnn.
  - intros h sig rest Hs. apply decodeSig_64. injection Hs as <-. reflexivity.
  - intros h sig Hs. injection Hs as <-. unfold verifyHash.
    rewrite bool_decide_eq_true_2; [reflexivity|]. reflexivity.
  - exact H.
Defined.

Lemma adjustedTarget_bounds_witness :
  Qle MaxAdjustmentDown MaxAdjustmentUp /\ 0 <= Target (mkNode G 0) /\
  adjustedTarget s_chain (mkNode G 0) (mkNode B 1) = Some (2 ^ 255 * 999 / 1000) /\
  Qfloor (Qmult (999 # 1000) (inject_Z (2 ^ 255))) <= 2 ^ 255 * 999 / 1000 <=
  Qfloor (Qmult (1001 # 1000) (inject_Z (2 ^ 255))).
Proof.
  assert (H1 : Qle MaxAdjustmentDown MaxAdjustmentUp) by close_concrete.
  assert (H2 : 0 <= Target (mkNode G 0)) by close_concrete.
  assert (H3 : adjustedTarget s_chain (mkNode G 0) (mkNode B 1) = Some (2 ^ 255 * 999 / 1000))
    by close_concrete.
  split; [exact H1|]. split; [exact H2|]. split; [exact H3|].
  exact (adjustedTarget_bounds s_chain (mkNode G 0) (mkNode B 1) _ H1 H2 H3).
Defined.

Lemma heavierFork_not_heavier_witness :
  currentBlockNode s_side = Some tipB /\ 0 < Depth tipB <= Depth (mkNode b5 1) /\
  0 < Target tipB /\ heavierFork s_side (mkNode b5 1) = Some false.
Proof.
  assert (H1 : currentBlockNode s_side = Some tipB) by close_concrete.
  assert (H2 : 0 < Depth tipB <= Depth (mkNode b5 1)) by (split; close_concrete).
  assert (H3 : 0 < Target tipB) by close_concrete.
  split; [exact H1|]. split; [exact H2|]. split; [exact H3|].
  exact (heavierFork_not_heavier s_side (mkNode b5 1) tipB H1 H2 H3).
Defined.

Lemma AcceptBlock_side_branch_witness :
  checkMaps s_side b5 = inr (mkNode G 0) /\
  validateHeader s_side (mkNode G 0) b5 100 = Some (None, s_side) /\
  exists s2 n, addBlockToTree s_side (mkNode G 0) b5 = Some (s2, n) /\
    heavierFork s2 n = Some false /\
    AcceptBlock 3 s_side b5 100 = Some (None, s2, [b5]) /\
    is_Some (BlockMap s2 !! 5) /\ CurrentBlock s2 = 2.
Proof.
  assert (Hc : checkMaps s_side b5 = inr (mkNode G 0)) by close_concrete.
  assert (Hv : validateHeader s_side (mkNode G 0) b5 100 = Some (None, s_side)) by close_concrete.
  split; [exact Hc|]. split; [exact Hv|].
  destruct (addBlockToTree s_side (mkNode G 0) b5) as [[s2 n]|] eqn:Ha;
    [|vm_compute in Ha; discriminate].
  assert (Hh : heavierFork s2 n = Some false).
  { vm_compute in Ha. injection Ha as <- <-. vm_compute. reflexivity. }
  exists s2, n. split; [reflexivity|]. split; [exact Hh|].
  destruct (AcceptBlock_side_branch 3 s_side s_side s2 b5 100 (mkNode G 0) n Hc Hv Ha Hh)
    as (A1 & _ & A3 & A4 & _).
  split; [exact A1|]. split; [exact A3|]. exact A4.
Defined.

End ExtraWitnesses.
